(** * dwislicealign: configuration, pipeline set-up and output assembly

    A shallow embedding of [src/cmd/dwislicealign.cpp] (the [run] function of
    the command) together with the parts of the slice-registration pipeline
    it drives.  The command itself is embedded from the source; the classes
    of [dwi/svr/register.h] and [dwi/svr/psf.h], which the command only
    instantiates, are modelled from the specification and marked as such. *)

From stdpp Require Import base option list gmap strings sorting.
From Stdlib Require Import QArith.QArith_base.

Open Scope string_scope.
Open Scope nat_scope.
Open Scope list_scope.

(** ** Data *)

(** [value_type = float].  No arithmetic is ever performed on the values by
    the command, so the carrier [F] stays abstract; only [0.0f] ([setZero])
    and [DEFAULT_SSPW = 1.0f] are named. *)

(** A row of the motion matrix: three translations and three rotations. *)
Record Vec6 (F : Type) : Type := mkVec6 {
  tx : F; ty : F; tz : F; rx : F; ry : F; rz : F
}.
Arguments mkVec6 {F} _ _ _ _ _ _.
Arguments tx {F} _.
Arguments ty {F} _.
Arguments tz {F} _.
Arguments rx {F} _.
Arguments ry {F} _.
Arguments rz {F} _.

(** [Eigen::MatrixXf]: run-time extents and a coefficient accessor. *)
Record Matrix (F : Type) : Type := mkMatrix {
  m_rows : nat;
  m_cols : nat;
  m_coeff : nat -> nat -> F
}.
Arguments mkMatrix {F} _ _ _.
Arguments m_rows {F} _.
Arguments m_cols {F} _.
Arguments m_coeff {F} _ _ _.

(** The part of an MRtrix image the command looks at: the name, the extent
    of each axis and the key/value table of the header. *)
Record Image : Type := mkImage {
  img_name : string;
  img_dims : list nat;
  img_keyval : gmap string string
}.

Definition ndim (im : Image) : nat := length (img_dims im).

(** ** Outcomes of a run *)

(** Exceptions that can travel through [run]: [MR::Exception] with its
    message, and the two exceptions of [std::stof]. *)
Inductive exn : Type :=
| MRException (msg : string)
| std_invalid_argument
| std_out_of_range.

(** Behaviour the C++ standard leaves undefined and that [run] can reach. *)
Inductive ub : Type :=
| UB_end_iterator      (* dereference of [keyval().find(..)] at [end()] *)
| UB_axis_range        (* [size(axis)] with [axis >= ndim()] *)
| UB_division_by_zero. (* integer [%] with a zero divisor *)

Inductive outcome (A : Type) : Type :=
| Ok (a : A)
| Throw (e : exn)
| Undefined (u : ub).
Arguments Ok {A} _.
Arguments Throw {A} _.
Arguments Undefined {A} _.

(** Result of a library call that either returns or throws. *)
Definition res (A : Type) : Type := (exn + A)%type.

(** [std::stof (t)]: the converted value and the number of characters
    consumed, or one of its two exceptions. *)
Inductive stof_result (F : Type) : Type :=
| StofValue (x : F) (pos : nat)
| StofInvalidArgument
| StofOutOfRange.
Arguments StofValue {F} _ _.
Arguments StofInvalidArgument {F}.
Arguments StofOutOfRange {F}.

#[global] Instance exn_eq_dec : EqDecision exn.
Proof. solve_decision. Defined.
#[global] Instance ub_eq_dec : EqDecision ub.
Proof. solve_decision. Defined.

(** ** Command line *)

(** [argument[0..2]] and the options of [usage ()].  [type_integer(0)]
    restricts [mb] and [maxiter] to non-negative integers. *)
Record Args : Type := mkArgs {
  arg_data : string;
  arg_mssh : string;
  arg_out : string;
  opt_mask : option string;
  opt_mb : option nat;
  opt_ssp : option string;
  opt_init : option string;
  opt_maxiter : option nat;
  opt_multiecho : option (string * string)
}.

(** [get_option_value (name, default)]. *)
Definition get_option_value (o : option nat) (dflt : nat) : nat :=
  match o with Some n => n | None => dflt end.

(** ** The registration classes ([namespace DWI::SVR]) *)

Module SVR.

(** Modelled from the spec: the class [SSP] of [dwi/svr/psf.h] is not part
    of the sources at hand.  The configured kernel is "a tagged variant
    {Scalar(width) | Vector(weights)}": either the width of the fixed
    profile or the explicit weights.  [run] obtains its kernels from the
    constructors [new_SSP_scalar] and [new_SSP_vector] below, which reject
    what is no valid kernel. *)
Inductive SSP (F : Type) : Type :=
| Scalar (width : F)
| Vector (weights : list F).
Arguments Scalar {F} _.
Arguments Vector {F} _.

(** Modelled from the spec: [SliceIdx] of [dwi/svr/register.h] is missing.
    A registration task and its result share one type: the identity
    (volume index, slice-group index) and the six-parameter estimate, the
    seed on the way in and the refined estimate on the way out. *)
Record SliceIdx (F : Type) : Type := mkSliceIdx {
  vol : nat;
  exc : nat;
  motion : Vec6 F
}.
Arguments mkSliceIdx {F} _ _ _.
Arguments vol {F} _.
Arguments exc {F} _.
Arguments motion {F} _.

Section Classes.
Context {F : Type}.

(** Modelled from the spec: construction of the kernel "rejects a weight
    vector with non-positive length or an invalid (non-numeric,
    non-positive) scalar argument".  Which values are positive and the
    exception that reports the rejection are parameters ([psf.h] is
    missing); a text that is no number never gets here, [std::stof]
    throws on it. *)
Definition new_SSP_scalar (positive : F -> bool) (rejection : exn)
    (width : F) : res (SSP F) :=
  if positive width then inr (Scalar width) else inl rejection.

(** Modelled from the spec: the kernel of explicit weights; "rejects a
    weight vector with non-positive length". *)
Definition new_SSP_vector (rejection : exn) (weights : list F)
    : res (SSP F) :=
  match weights with
  | [] => inl rejection
  | _ => inr (Vector weights)
  end.

(** Modelled from the spec: row [i] of a matrix with six columns read as
    "a 6-tuple (3 translation + 3 rotation parameters)". *)
Definition row6 (m : Matrix F) (i : nat) : Vec6 F :=
  mkVec6 (m_coeff m i 0) (m_coeff m i 1) (m_coeff m i 2)
         (m_coeff m i 3) (m_coeff m i 4) (m_coeff m i 5).

(** *** SliceAlignSource *)

(** Modelled from the spec: [SliceAlignSource] of [dwi/svr/register.h] is
    missing.  It is built from the volume count, the slice count, the
    multiband factor, the gradient table, the shell b-values and the
    initial motion matrix, and enumerates "one task per (volume,
    slice-group) pair", [sliceCount / mb] groups per volume. *)
Record SliceAlignSource : Type := mkSource {
  src_nv : nat;
  src_ne : nat;
  src_grad : Matrix F;
  src_bvals : list F;
  src_init : Matrix F
}.

(** Modelled from the spec: the constructor call of line 129; the number of
    slice groups per volume is [sliceCount / mb]. *)
Definition new_SliceAlignSource (nv nz mb : nat) (grad : Matrix F)
    (bvals : list F) (init : Matrix F) : SliceAlignSource :=
  mkSource nv (nz / mb) grad bvals init.

(** Modelled from the spec: "every DWI volume must resolve to exactly one
    shell", and a mismatch "between MSSH and DWI shell counts" is a fatal
    configuration error.  [run] does not look at the shells itself, so the
    constructor that receives the gradient table and the b-values does;
    matching b-values is arithmetic on the values and a parameter
    ([shells_error]: the exception, if the volumes do not resolve). *)
Definition construct_SliceAlignSource
    (shells_error : Matrix F -> list F -> option exn) (nv nz mb : nat)
    (grad : Matrix F) (bvals : list F) (init : Matrix F)
    : res SliceAlignSource :=
  match shells_error grad bvals with
  | Some e => inl e
  | None => inr (new_SliceAlignSource nv nz mb grad bvals init)
  end.

(** Modelled from the spec: "rows are broadcast/tiled to match the per-task
    granularity".  The [N] rows of the initial matrix are spread over the
    [nv * ne] tasks in enumeration order, each row serving a block of
    consecutive tasks; with [N = nv] every slice group of volume [v] reads
    row [v]. *)
Definition init_row (N nv ne v e : nat) : nat :=
  ((v * ne + e) * N) / (nv * ne).

(** Modelled from the spec: the initial motion matrix at task granularity,
    "the (possibly tiled) initial motion matrix": the row that seeds the
    task of volume [v] and slice group [e]. *)
Definition tiled_row (init : Matrix F) (nv ne v e : nat) : Vec6 F :=
  row6 init (init_row (m_rows init) nv ne v e).

(** Modelled from the spec: the enumeration order of the tasks, "row-major
    (volume-major, then slice-group) order", here for any per-task
    quantity [f v e]. *)
Definition enumerate {A : Type} (nv ne : nat) (f : nat -> nat -> A) : list A :=
  v ← seq 0 nv;
  e ← seq 0 ne;
  [f v e].

(** Modelled from the spec: "each task's initial estimate is drawn from the
    (possibly tiled) initial motion matrix". *)
Definition seed (s : SliceAlignSource) (v e : nat) : Vec6 F :=
  tiled_row (src_init s) (src_nv s) (src_ne s) v e.

(** Modelled from the spec: the tasks come "one per (volume, slice-group)
    pair in row-major (volume-major, then slice-group) order; total count
    = volumeCount x (sliceCount/mb)". *)
Definition source_tasks (s : SliceAlignSource) : list (SliceIdx F) :=
  enumerate (src_nv s) (src_ne s) (fun v e => mkSliceIdx v e (seed s v e)).

(** Modelled from the spec: the tiled initial motion matrix as a whole, one
    row per task in enumeration order. *)
Definition tiled_init (init : Matrix F) (nv ne : nat) : list (Vec6 F) :=
  enumerate nv ne (tiled_row init nv ne).

(** *** SliceAlignPipe *)

(** Modelled from the spec: [SliceAlignPipe] of [dwi/svr/register.h] is
    missing.  It holds read-only views of the data, the prediction and the
    mask, the multiband factor, the iteration limit and the kernel, plus
    the second echo once [set_multiecho] was called. *)
Record SliceAlignPipe : Type := mkPipe {
  pipe_data : Image;
  pipe_mssh : Image;
  pipe_mask : option Image;
  pipe_mb : nat;
  pipe_niter : nat;
  pipe_ssp : SSP F;
  pipe_echo2 : option (Image * Image)
}.

(** Modelled from the spec: the constructor call of line 130. *)
Definition new_SliceAlignPipe (data mssh : Image) (mask : option Image)
    (mb niter : nat) (ssp : SSP F) : SliceAlignPipe :=
  mkPipe data mssh mask mb niter ssp None.

(** Modelled from the spec: [set_multiecho] enables the "optional
    second-echo inputs" of the worker. *)
Definition set_multiecho (p : SliceAlignPipe) (data2 mssh2 : Image)
    : SliceAlignPipe :=
  mkPipe (pipe_data p) (pipe_mssh p) (pipe_mask p) (pipe_mb p)
         (pipe_niter p) (pipe_ssp p) (Some (data2, mssh2)).

(** Modelled from the spec: the numerical core of one iteration is outside
    the specification's scope ("the specific nonlinear optimizer's
    numerical internals"), so one update of the six parameters and the
    convergence test are parameters of the model. *)
Record Optimizer : Type := mkOptimizer {
  opt_step : SliceAlignPipe -> nat -> nat -> Vec6 F -> Vec6 F;
  opt_converged : SliceAlignPipe -> nat -> nat -> Vec6 F -> Vec6 F -> bool
}.

(** Modelled from the spec: "Stop when the configured maximum iteration
    count is reached or convergence criterion is met, whichever first;
    zero iterations configured means do not refine - return seed
    estimate". *)
Fixpoint refine (o : Optimizer) (p : SliceAlignPipe) (v e : nat)
    (n : nat) (x : Vec6 F) : Vec6 F :=
  match n with
  | 0 => x
  | S k =>
      let x' := opt_step o p v e x in
      if opt_converged o p v e x x' then x' else refine o p v e k x'
  end.

(** Modelled from the spec: the worker "consumes one Registration Task,
    returns one Task Result" with the identity of the task and the refined
    estimate. *)
Definition pipe_apply (o : Optimizer) (p : SliceAlignPipe)
    (t : SliceIdx F) : SliceIdx F :=
  mkSliceIdx (vol t) (exc t)
             (refine o p (vol t) (exc t) (pipe_niter p) (motion t)).

(** *** SliceAlignSink *)

(** Modelled from the spec: [SliceAlignSink] of [dwi/svr/register.h] is
    missing.  The motion matrix has [volumeCount x (sliceCount/mb)] rows of
    six parameters; "rows not yet resolved are undefined" ([None]). *)
Record SliceAlignSink : Type := mkSink {
  sink_ne : nat;
  sink_motion : list (option (Vec6 F))
}.

(** Modelled from the spec: the constructor call of line 131, "row count =
    volumeCount x (sliceCount/mb)". *)
Definition new_SliceAlignSink (nv nz mb : nat) : SliceAlignSink :=
  mkSink (nz / mb) (replicate (nv * (nz / mb)) None).

(** Modelled from the spec: the collector "indexes each [result] into its
    fixed position (volume index, slice-group index)"; a second result for
    the same identity overwrites the first ("the later write wins"). *)
Definition sink_row (s : SliceAlignSink) (r : SliceIdx F) : nat :=
  vol r * sink_ne s + exc r.

(** Modelled from the spec: one result is written to the row of its
    identity, whatever arrived before it. *)
Definition sink_apply (s : SliceAlignSink) (r : SliceIdx F)
    : SliceAlignSink :=
  mkSink (sink_ne s) (<[sink_row s r := Some (motion r)]> (sink_motion s)).

(** Modelled from the spec: the "read accessor for the completed
    matrix". *)
Definition get_motion (s : SliceAlignSink) : list (option (Vec6 F)) :=
  sink_motion s.

End Classes.

Arguments SliceAlignSource F : clear implicits.
Arguments SliceAlignPipe F : clear implicits.
Arguments SliceAlignSink F : clear implicits.
Arguments Optimizer F : clear implicits.

End SVR.

Import SVR.

(** ** Observable actions *)

(** What a run does that the properties below talk about, in the order in
    which it happens: the two attempts at reading the SSP argument, the
    construction of the three pipeline components, the registration of the
    second echo, the start of the registration queue with the tasks that
    enter it and the write of the output file. *)
Inductive event (F : Type) : Type :=
| EvStof (t : string)
| EvLoadVector (t : string)
| EvNewSource
| EvNewPipe
| EvNewSink
| EvSetMultiecho
| EvRunQueue (tasks : list (SliceIdx F))
| EvSaveMatrix (m : list (option (Vec6 F))) (file : string).
Arguments EvStof {F} _.
Arguments EvLoadVector {F} _.
Arguments EvNewSource {F}.
Arguments EvNewPipe {F}.
Arguments EvNewSink {F}.
Arguments EvSetMultiecho {F}.
Arguments EvRunQueue {F} _.
Arguments EvSaveMatrix {F} _ _.

(** ** The environment of a run *)

(** Everything [run] obtains from outside the command: the MRtrix core
    library (image access, gradient import, text parsing, matrix and vector
    loaders, the write of a matrix file: [save_error] is the exception of
    a write that fails), [std::stof], the arithmetic behind the classes of
    the pipeline ([positive], [ssp_rejection] and [shells_error], the
    parameters of their constructors; [optimizer]) and the order in which
    the thread queue hands results to the sink. *)
Record World (F : Type) : Type := mkWorld {
  image_open : string -> res Image;
  get_DW_scheme : Image -> res (Matrix F);
  parse_floats : string -> res (list F);
  stof : string -> stof_result F;
  load_vector : string -> res (list F);
  load_matrix : string -> res (Matrix F);
  save_error : string -> option exn;
  positive : F -> bool;
  ssp_rejection : exn;
  shells_error : Matrix F -> list F -> option exn;
  optimizer : Optimizer F;
  arrival : list (SliceIdx F) -> list (SliceIdx F)
}.
Arguments image_open {F} _ _.
Arguments get_DW_scheme {F} _ _.
Arguments parse_floats {F} _ _.
Arguments stof {F} _ _.
Arguments load_vector {F} _ _.
Arguments load_matrix {F} _ _.
Arguments save_error {F} _ _.
Arguments positive {F} _ _.
Arguments ssp_rejection {F} _.
Arguments shells_error {F} _ _ _.
Arguments optimizer {F} _.
Arguments arrival {F} _ _.

(** A thread queue delivers every result exactly once, in some order. *)
Definition fair_queue {F : Type} (w : World F) : Prop :=
  ∀ l, arrival w l ≡ₚ l.

(** ** The command monad: a trace of actions and an outcome *)

(** The actions of a run so far, oldest first. *)
Definition trace (F : Type) : Type := list (event F).

(** A piece of [run]: from the trace so far to the extended trace and the
    result, the exception thrown or the undefined behaviour reached. *)
Definition M (F A : Type) : Type := trace F -> trace F * outcome A.

Definition ret {F A} (a : A) : M F A := fun tr => (tr, Ok a).

Definition bind {F A B} (m : M F A) (k : A -> M F B) : M F B :=
  fun tr =>
    match m tr with
    | (tr', Ok a) => k a tr'
    | (tr', Throw e) => (tr', Throw e)
    | (tr', Undefined u) => (tr', Undefined u)
    end.

Definition throw {F A} (e : exn) : M F A := fun tr => (tr, Throw e).

Definition undefined {F A} (u : ub) : M F A := fun tr => (tr, Undefined u).

Definition emit {F} (ev : event F) : M F unit :=
  fun tr => (tr ++ [ev], Ok tt).

(** A library call that returns or throws. *)
Definition call {F A} (r : res A) : M F A :=
  match r with
  | inr a => ret a
  | inl e => throw e
  end.

(** [try { body } catch (E&) { handler }]: the handler runs for the
    exceptions selected by [catches]; every other exception propagates,
    and undefined behaviour is not an exception. *)
Definition try_catch {F A} (body : M F A) (catches : exn -> bool)
    (handler : M F A) : M F A :=
  fun tr =>
    match body tr with
    | (tr', Throw e) => if catches e then handler tr' else (tr', Throw e)
    | r => r
    end.

(** [catch (std::invalid_argument& e)]. *)
Definition catch_invalid_argument (e : exn) : bool :=
  bool_decide (e = std_invalid_argument).

(** [catch (...)]. *)
Definition catch_all (e : exn) : bool := true.

Notation "x <- c1 ;; c2" := (bind c1 (fun x => c2))
  (at level 100, c1 at next level, right associativity).
Notation "c1 ;; c2" := (bind c1 (fun _ => c2))
  (at level 100, right associativity).

Section Command.
Context {F : Type}.
Variable F0 : F.  (* 0.0f *)
Variable F1 : F.  (* DEFAULT_SSPW *)

(** ** MRtrix core helpers used by [run] *)

(** [Image<T>::open]. *)
Definition open (w : World F) (name : string) : M F Image :=
  call (image_open w name).

(** [image.size (axis)]. *)
Definition size (im : Image) (axis : nat) : M F nat :=
  match img_dims im !! axis with
  | Some n => ret n
  | None => undefined UB_axis_range
  end.

(** [dimensions_match (in1, in2)] of the MRtrix core: same number of axes
    and same extent along each. *)
Definition dimensions_match (in1 in2 : Image) : bool :=
  bool_decide (img_dims in1 = img_dims in2).

(** [dimensions_match (in1, in2, from_axis, to_axis)]: both images have
    at least [to_axis] axes and agree on the axes in the range. *)
Definition dimensions_match_axes (in1 in2 : Image) (from_axis to_axis : nat)
    : bool :=
  bool_decide (to_axis ≤ ndim in1) && bool_decide (to_axis ≤ ndim in2)
  && bool_decide (drop from_axis (take to_axis (img_dims in1))
                  = drop from_axis (take to_axis (img_dims in2))).

(** The double quote character of the messages. *)
Definition dquote : string := String (Ascii.ascii_of_nat 34) EmptyString.

(** The exception of [check_dimensions]. *)
Definition dimension_mismatch (in1 in2 : Image) : exn :=
  MRException ("dimension mismatch between " +:+ dquote +:+ img_name in1
               +:+ dquote +:+ " and " +:+ dquote +:+ img_name in2 +:+ dquote).

(** [check_dimensions (in1, in2)] of the MRtrix core. *)
Definition check_dimensions (in1 in2 : Image) : M F unit :=
  if dimensions_match in1 in2 then ret tt
  else throw (dimension_mismatch in1 in2).

(** [check_dimensions (in1, in2, from_axis, to_axis)]. *)
Definition check_dimensions_axes (in1 in2 : Image) (from_axis to_axis : nat)
    : M F unit :=
  if dimensions_match_axes in1 in2 from_axis to_axis then ret tt
  else throw (dimension_mismatch in1 in2).

(** [Thread::run_queue (source, SliceIdx(), Thread::multi (pipe),
    SliceIdx(), sink)]: every task of the source goes through a copy of the
    worker, and the results reach the sink in the order the queue delivers
    them. *)
Definition run_queue (w : World F) (source : SliceAlignSource F)
    (pipe : SliceAlignPipe F) (sink : SliceAlignSink F)
    : M F (SliceAlignSink F) :=
  let tasks := source_tasks source in
  emit (EvRunQueue tasks) ;;
  ret (foldl sink_apply sink
             (arrival w (pipe_apply (optimizer w) pipe <$> tasks))).

(** [save_matrix (M, filename)]: the call, and the exception of a write
    that fails. *)
Definition save_matrix (w : World F) (m : list (option (Vec6 F)))
    (file : string) : M F unit :=
  emit (EvSaveMatrix m file) ;;
  match save_error w file with
  | Some e => throw e
  | None => ret tt
  end.

(** [DWI::SVR::SSP<float> (x)] and [DWI::SVR::SSP<float> (v)]. *)
Definition SSP_scalar (w : World F) (x : F) : M F (SSP F) :=
  call (new_SSP_scalar (positive w) (ssp_rejection w) x).

Definition SSP_vector (w : World F) (v : list F) : M F (SSP F) :=
  call (new_SSP_vector (ssp_rejection w) v).

(** [std::stof (t)] as a call that returns the value or throws. *)
Definition std_stof (w : World F) (t : string) : M F F :=
  emit (EvStof t) ;;
  match stof w t with
  | StofValue x _ => ret x
  | StofInvalidArgument => throw std_invalid_argument
  | StofOutOfRange => throw std_out_of_range
  end.

(** [load_vector<float> (t)]. *)
Definition load_vector_f (w : World F) (t : string) : M F (list F) :=
  emit (EvLoadVector t) ;;
  call (load_vector w t).

(** [Eigen::MatrixXf init (rows, cols); init.setZero ();]. *)
Definition zero_matrix (rows cols : nat) : Matrix F :=
  mkMatrix rows cols (fun _ _ => F0).

(** ** [run ()], block by block *)

(** Lines 71-89: the input data with its gradient table, the 5-D MSSH
    prediction with its shells, the optional mask. *)
Definition run_inputs (w : World F) (a : Args)
    : M F (Image * Matrix F * Image * list F * option Image) :=
  data <- open w (arg_data a) ;;
  grad <- call (get_DW_scheme w data) ;;
  mssh <- open w (arg_mssh a) ;;
  (if bool_decide (ndim mssh ≠ 5)
   then throw (MRException "5-D MSSH image expected.")
   else ret tt) ;;
  bvals <- match img_keyval mssh !! "shells" with
           | Some s => call (parse_floats w s)
           | None => undefined UB_end_iterator
           end ;;
  mask <- match opt_mask a with
          | Some f =>
              m <- open w f ;;
              check_dimensions_axes data m 0 3 ;;
              ret (Some m)
          | None => ret None
          end ;;
  ret (data, grad, mssh, bvals, mask).

(** Lines 91-99: the multiband factor. *)
Definition run_mb (a : Args) (data : Image) : M F nat :=
  let mb := get_option_value (opt_mb a) 0 in
  nz <- size data 2 ;;
  if bool_decide (mb = 0 ∨ mb = nz) then ret nz
  else if bool_decide (nz mod mb ≠ 0)
       then throw (MRException "multiband factor invalid.")
       else ret mb.

(** Lines 101-116: the slice sensitivity profile. *)
Definition run_ssp (w : World F) (a : Args) : M F (SSP F) :=
  ssp <- SSP_scalar w F1 ;;
  match opt_ssp a with
  | None => ret ssp
  | Some t =>
      try_catch (x <- std_stof w t ;; SSP_scalar w x)
        catch_invalid_argument
        (try_catch (v <- load_vector_f w t ;; SSP_vector w v)
           catch_all
           (throw (MRException "Invalid argument for SSP.")))
  end.

(** Lines 118-126: the iteration limit and the initial motion. *)
Definition run_init (w : World F) (a : Args) (data : Image) : M F (Matrix F) :=
  nv <- size data 3 ;;
  match opt_init a with
  | None => ret (zero_matrix nv 6)
  | Some f =>
      init <- call (load_matrix w f) ;;
      bad <- (if bool_decide (m_cols init ≠ 6) then ret true
              else
                nv <- size data 3 ;;
                nz <- size data 2 ;;
                if bool_decide (m_rows init = 0)
                then undefined UB_division_by_zero
                else ret (bool_decide ((nv * nz) mod m_rows init ≠ 0))) ;;
      if bad : bool
      then throw (MRException "dimension mismatch in motion initialisaton.")
      else ret init
  end.

(** Lines 133-141: the second echo. *)
Definition run_multiecho (w : World F) (a : Args) (data mssh : Image)
    (pipe : SliceAlignPipe F) : M F (SliceAlignPipe F) :=
  match opt_multiecho a with
  | None => ret pipe
  | Some (f1, f2) =>
      data2 <- open w f1 ;;
      check_dimensions data data2 ;;
      mssh2 <- open w f2 ;;
      check_dimensions mssh mssh2 ;;
      emit EvSetMultiecho ;;
      ret (set_multiecho pipe data2 mssh2)
  end.

(** [void run ()]. *)
Definition run (w : World F) (a : Args) : M F unit :=
  inputs <- run_inputs w a ;;
  let '(data, grad, mssh, bvals, mask) := inputs in
  mb <- run_mb a data ;;
  ssp <- run_ssp w a ;;
  let niter := get_option_value (opt_maxiter a) 0 in
  init <- run_init w a data ;;
  nv <- size data 3 ;;
  nz <- size data 2 ;;
  source <- call (construct_SliceAlignSource (shells_error w) nv nz mb grad
                                             bvals init) ;;
  emit EvNewSource ;;
  emit EvNewPipe ;;
  let pipe := new_SliceAlignPipe data mssh mask mb niter ssp in
  emit EvNewSink ;;
  let sink := new_SliceAlignSink nv nz mb in
  pipe <- run_multiecho w a data mssh pipe ;;
  sink <- run_queue w source pipe sink ;;
  save_matrix w (get_motion sink) (arg_out a).

End Command.

(** ** Vocabulary of the properties *)

(** The pipeline components exist: one of the three constructors, or
    [set_multiecho] on the constructed worker, has run. *)
Definition is_component_event {F} (ev : event F) : bool :=
  match ev with
  | EvNewSource | EvNewPipe | EvNewSink | EvSetMultiecho => true
  | _ => false
  end.

(** Registration work: the queue was started. *)
Definition is_registration_event {F} (ev : event F) : bool :=
  match ev with
  | EvRunQueue _ => true
  | _ => false
  end.

(** Output: [save_matrix] was called on a motion matrix. *)
Definition is_output_event {F} (ev : event F) : bool :=
  match ev with
  | EvSaveMatrix _ _ => true
  | _ => false
  end.

(** An attempt at reading the SSP argument. *)
Definition is_parse_event {F} (ev : event F) : bool :=
  match ev with
  | EvStof _ | EvLoadVector _ => true
  | _ => false
  end.

(** No event of the trace satisfies [p]. *)
Definition none_of {F} (p : event F -> bool) (tr : trace F) : Prop :=
  Forall (fun ev => p ev = false) tr.

(** The multiband factor after lines 93-94. *)
Definition effective_mb (mb nz : nat) : nat :=
  if bool_decide (mb = 0 ∨ mb = nz) then nz else mb.

(** The identity transform. *)
Definition zero6 {F} (F0 : F) : Vec6 F := mkVec6 F0 F0 F0 F0 F0 F0.

(** The six columns of a row. *)
Definition coeffs {F} (x : Vec6 F) : list F :=
  [tx x; ty x; tz x; rx x; ry x; rz x].

(** The body of the outer [try] (lines 106-107) as a value: [std::stof]
    on the argument and the constructor of the kernel on the number it
    returns. *)
Definition scalar_reading {F} (w : World F) (t : string) : res (SSP F) :=
  match stof w t with
  | StofValue x _ => new_SSP_scalar (positive w) (ssp_rejection w) x
  | StofInvalidArgument => inl std_invalid_argument
  | StofOutOfRange => inl std_out_of_range
  end.

(** The body of the inner [try] (lines 110-111) as a value: [load_vector]
    on the argument and the constructor of the kernel on the weights. *)
Definition vector_reading {F} (w : World F) (t : string) : res (SSP F) :=
  match load_vector w t with
  | inr v => new_SSP_vector (ssp_rejection w) v
  | inl e => inl e
  end.

(** The same environment with another delivery order of the queue. *)
Definition with_arrival {F} (w : World F)
    (arr : list (SliceIdx F) -> list (SliceIdx F)) : World F :=
  mkWorld F (image_open w) (get_DW_scheme w) (parse_floats w) (stof w)
          (load_vector w) (load_matrix w) (save_error w) (positive w)
          (ssp_rejection w) (shells_error w) (optimizer w) arr.

(** The results in the order of the tasks, as rows of the output. *)
Definition results_in_order {F} (o : Optimizer F) (p : SliceAlignPipe F)
    (tasks : list (SliceIdx F)) : list (option (Vec6 F)) :=
  (fun t => Some (motion (pipe_apply o p t))) <$> tasks.

(** ** Configurations *)

(** What lines 71-126 of [run] determine when all of them succeed. *)
Record Config (F : Type) : Type := mkConfig {
  cfg_data : Image;
  cfg_grad : Matrix F;
  cfg_mssh : Image;
  cfg_bvals : list F;
  cfg_mask : option Image;
  cfg_nz : nat;
  cfg_nv : nat;
  cfg_mb : nat;
  cfg_ssp : SSP F;
  cfg_init : Matrix F
}.
Arguments mkConfig {F} _ _ _ _ _ _ _ _ _ _.
Arguments cfg_data {F} _.
Arguments cfg_grad {F} _.
Arguments cfg_mssh {F} _.
Arguments cfg_bvals {F} _.
Arguments cfg_mask {F} _.
Arguments cfg_nz {F} _.
Arguments cfg_nv {F} _.
Arguments cfg_mb {F} _.
Arguments cfg_ssp {F} _.
Arguments cfg_init {F} _.

Section Configured.
Context {F : Type}.
Variable F0 : F.
Variable F1 : F.

(** Lines 71-126 of [run] in one piece: the blocks in the order of [run],
    with their results gathered in a configuration. *)
Definition run_config (w : World F) (a : Args) : M F (Config F) :=
  inputs <- run_inputs w a ;;
  let '(data, grad, mssh, bvals, mask) := inputs in
  mb <- run_mb a data ;;
  ssp <- run_ssp F1 w a ;;
  init <- run_init F0 w a data ;;
  nv <- size data 3 ;;
  nz <- size data 2 ;;
  ret (mkConfig data grad mssh bvals mask nz nv mb ssp init).

(** The configuration blocks of [run] all succeed on the command line [a]
    and yield [c]; [ptr] holds the attempts at reading the SSP argument. *)
Definition configured (w : World F) (a : Args) (c : Config F)
    (ptr : trace F) : Prop :=
  run_config w a [] = (ptr, Ok c).

(** The components lines 129-131 build from a configuration. *)
Definition cfg_source (c : Config F) : SliceAlignSource F :=
  new_SliceAlignSource (cfg_nv c) (cfg_nz c) (cfg_mb c) (cfg_grad c)
                       (cfg_bvals c) (cfg_init c).

(** The worker of line 130, with the iteration limit of line 119. *)
Definition cfg_pipe (a : Args) (c : Config F) : SliceAlignPipe F :=
  new_SliceAlignPipe (cfg_data c) (cfg_mssh c) (cfg_mask c) (cfg_mb c)
                     (get_option_value (opt_maxiter a) 0) (cfg_ssp c).

(** The sink of line 131. *)
Definition cfg_sink (c : Config F) : SliceAlignSink F :=
  new_SliceAlignSink (cfg_nv c) (cfg_nz c) (cfg_mb c).

(** Lines 128-147 on a configuration. *)
Definition run_pipeline (w : World F) (a : Args) (c : Config F)
    : M F unit :=
  source <- call (construct_SliceAlignSource (shells_error w) (cfg_nv c)
                    (cfg_nz c) (cfg_mb c) (cfg_grad c) (cfg_bvals c)
                    (cfg_init c)) ;;
  emit EvNewSource ;;
  emit EvNewPipe ;;
  emit EvNewSink ;;
  pipe <- run_multiecho w a (cfg_data c) (cfg_mssh c) (cfg_pipe a c) ;;
  sink <- run_queue w source pipe (cfg_sink c) ;;
  save_matrix w (get_motion sink) (arg_out a).

End Configured.

(** ** Trace discipline *)

(** A computation leaves the trace alone. *)
Definition silent {F A} (m : M F A) : Prop :=
  ∀ tr, m tr = (tr, snd (m [])).

(** ** A concrete environment *)

(** A small data set on which the model runs: a DWI series of three
    volumes with six slices, its five-dimensional prediction with two
    shells, second-echo images with and without the right extents, and a
    few text files.  Values are rationals. *)
Module Demo.

Definition dwi : Image := mkImage "dwi.mif" [4; 4; 6; 3] ∅.

Definition mssh : Image :=
  mkImage "mssh.mif" [4; 4; 6; 5; 2] {[ "shells" := "0,1000" ]}.

Definition mssh_bare : Image := mkImage "bare.mif" [4; 4; 6; 5; 2] ∅.

Definition echo2 : Image := mkImage "echo2.mif" [4; 4; 6; 3] ∅.

Definition echo2_short : Image := mkImage "short.mif" [4; 4; 5; 3] ∅.

Definition no_file : exn := MRException "cannot open file".

Definition files (name : string) : res Image :=
  if bool_decide (name = "dwi.mif") then inr dwi
  else if bool_decide (name = "mssh.mif") then inr mssh
  else if bool_decide (name = "bare.mif") then inr mssh_bare
  else if bool_decide (name = "echo2.mif") then inr echo2
  else if bool_decide (name = "short.mif") then inr echo2_short
  else inl no_file.

(** [std::stof] on the strings used below: a number, a number followed by
    text (three characters consumed), a negative number, a number beyond
    the range of [float], and a file name. *)
Definition stof_table (t : string) : stof_result Q :=
  if bool_decide (t = "2") then StofValue (2 # 1)%Q 1
  else if bool_decide (t = "1.5abc") then StofValue (3 # 2)%Q 3
  else if bool_decide (t = "-1") then StofValue (-1 # 1)%Q 2
  else if bool_decide (t = "1e50") then StofOutOfRange
  else StofInvalidArgument.

(** Vector files: [ssp.txt], a file without weights, and a file that
    happens to be called [1e50]. *)
Definition vectors (t : string) : res (list Q) :=
  if bool_decide (t = "ssp.txt") then inr [(1 # 4)%Q; (1 # 2)%Q; (1 # 4)%Q]
  else if bool_decide (t = "empty.txt") then inr []
  else if bool_decide (t = "1e50") then inr [(1 # 1)%Q]
  else inl no_file.

(** Matrix files: one row per volume, five columns, seven rows. *)
Definition matrices (f : string) : res (Matrix Q) :=
  if bool_decide (f = "init.txt")
  then inr (mkMatrix 3 6 (fun i j => (Z.of_nat (10 * i + j) # 1)%Q))
  else if bool_decide (f = "five.txt")
  then inr (mkMatrix 3 5 (fun _ _ => 0%Q))
  else if bool_decide (f = "seven.txt")
  then inr (mkMatrix 7 6 (fun _ _ => 0%Q))
  else inl no_file.

(** An optimizer that moves every estimate by one along x and never
    reports convergence. *)
Definition shift_x : Optimizer Q :=
  mkOptimizer
    (fun _ _ _ x => mkVec6 (tx x + 1)%Q (ty x) (tz x) (rx x) (ry x) (rz x))
    (fun _ _ _ _ _ => false).

(** The exception with which the kernel rejects its argument. *)
Definition bad_kernel : exn := MRException "invalid SSP".

(** Every file can be written but [readonly.txt]. *)
Definition no_write : exn := MRException "cannot write file".

Definition writes (file : string) : option exn :=
  if bool_decide (file = "readonly.txt") then Some no_write else None.

(** The environment: a width is valid when its numerator is positive, the
    volumes resolve to the shells, and the queue delivers the results last
    to first. *)
Definition world : World Q :=
  mkWorld Q files (fun _ => inr (mkMatrix 3 4 (fun _ _ => 0%Q)))
          (fun _ => inr [0%Q; (1000 # 1)%Q]) stof_table vectors matrices
          writes (fun x => (0 <? Qnum x)%Z) bad_kernel
          (fun _ _ => None) shift_x (@rev _).

(** [dwislicealign dwi.mif mssh.mif out.txt] with options. *)
Definition args (mb : option nat) (ssp init : option string)
    (maxiter : option nat) (multiecho : option (string * string)) : Args :=
  mkArgs "dwi.mif" "mssh.mif" "out.txt" None mb ssp init maxiter multiecho.

(** One run of the command in this environment. *)
Definition execute (a : Args) : trace Q * outcome unit :=
  run 0%Q 1%Q world a [].

End Demo.

(** ** Configuration errors, by their cause *)

(** What is wrong with a command line that has a configuration error in
    its inputs or options: the prediction is not five-dimensional; the
    mask does not fit the data on the spatial axes; the multiband factor is
    neither 0 nor the slice count and does not divide the slice count; the
    SSP argument gives no kernel as a scalar and, where the vector is
    tried, none as a vector; the initial motion matrix has not six columns
    or a row count that does not divide volumeCount x sliceCount. *)
Inductive configuration_error {F} (w : World F) (a : Args) : Prop :=
| Error_mssh_shape mssh :
    image_open w (arg_mssh a) = inr mssh →
    ndim mssh ≠ 5 →
    configuration_error w a
| Error_mask_shape data f m :
    image_open w (arg_data a) = inr data →
    opt_mask a = Some f →
    image_open w f = inr m →
    dimensions_match_axes data m 0 3 = false →
    configuration_error w a
| Error_multiband data nz mb :
    image_open w (arg_data a) = inr data →
    img_dims data !! 2 = Some nz →
    opt_mb a = Some mb →
    mb ≠ 0 → mb ≠ nz → nz mod mb ≠ 0 →
    configuration_error w a
| Error_ssp t e :
    opt_ssp a = Some t →
    scalar_reading w t = inl e →
    (e = std_invalid_argument → ∃ e', vector_reading w t = inl e') →
    configuration_error w a
| Error_init data nz nv f init :
    image_open w (arg_data a) = inr data →
    img_dims data !! 2 = Some nz →
    img_dims data !! 3 = Some nv →
    opt_init a = Some f →
    load_matrix w f = inr init →
    (m_cols init = 6 → 0 < m_rows init) →
    m_cols init ≠ 6 ∨ ¬ (m_rows init | nv * nz) →
    configuration_error w a.

(** An image of the second echo has not the extents of its primary
    counterpart. *)
Inductive second_echo_mismatch {F} (w : World F) (a : Args) : Prop :=
| Mismatch_data f1 f2 data data2 :
    opt_multiecho a = Some (f1, f2) →
    image_open w (arg_data a) = inr data →
    image_open w f1 = inr data2 →
    img_dims data2 ≠ img_dims data →
    second_echo_mismatch w a
| Mismatch_mssh f1 f2 mssh mssh2 :
    opt_multiecho a = Some (f1, f2) →
    image_open w (arg_mssh a) = inr mssh →
    image_open w f2 = inr mssh2 →
    img_dims mssh2 ≠ img_dims mssh →
    second_echo_mismatch w a.

(** ** Two sentences of the specification, as it states them *)

(** "Configuration errors ... detected eagerly before pipeline
    construction; fatal, abort the run ... no partial output is produced",
    the mismatch of the second echo among them: a run on a command line
    with such an error does not complete, constructs no component and
    writes nothing. *)
Definition errors_before_construction {F} (F0 F1 : F) (w : World F)
    (a : Args) : Prop :=
  configuration_error w a ∨ second_echo_mismatch w a →
  ∀ tr o, run F0 F1 w a [] = (tr, o) →
    (∀ u, o ≠ Ok u)
    ∧ none_of is_component_event tr
    ∧ none_of is_output_event tr.

(** "Try scalar, else try vector, else fail": when the scalar reading of
    the SSP argument fails the vector is read, and when that fails too the
    configuration error is raised. *)
Definition scalar_else_vector_else_fail {F} (F1 : F) (w : World F)
    (a : Args) : Prop :=
  ∀ t, opt_ssp a = Some t →
       (∀ ssp, scalar_reading w t ≠ inr ssp) →
       snd (run_ssp F1 w a [])
       = match vector_reading w t with
         | inr ssp => Ok ssp
         | inl _ => Throw (MRException "Invalid argument for SSP.")
         end.

(** ** Command lines that differ in one option *)

(** The command line [a] with another [-mb] option. *)
Definition with_mb (a : Args) (mb : option nat) : Args :=
  mkArgs (arg_data a) (arg_mssh a) (arg_out a) (opt_mask a) mb (opt_ssp a)
         (opt_init a) (opt_maxiter a) (opt_multiecho a).

(** The command line [a] with another [-maxiter] option. *)
Definition with_maxiter (a : Args) (n : option nat) : Args :=
  mkArgs (arg_data a) (arg_mssh a) (arg_out a) (opt_mask a) (opt_mb a)
         (opt_ssp a) (opt_init a) n (opt_multiecho a).

(** The command line [a] without its [-multiecho] option. *)
Definition without_multiecho (a : Args) : Args :=
  mkArgs (arg_data a) (arg_mssh a) (arg_out a) (opt_mask a) (opt_mb a)
         (opt_ssp a) (opt_init a) (opt_maxiter a) None.

(** ** The order of the actions in [run] *)

(** The place of an action in the text of [run]: the SSP readings of lines
    107 and 110, the constructors of lines 129-131, [set_multiecho] of line
    140, the queue of line 144 and the output of line 147. *)
Definition step_of {F} (ev : event F) : nat :=
  match ev with
  | EvStof _ => 107
  | EvLoadVector _ => 110
  | EvNewSource => 129
  | EvNewPipe => 130
  | EvNewSink => 131
  | EvSetMultiecho => 140
  | EvRunQueue _ => 144
  | EvSaveMatrix _ _ => 147
  end.

(** An action without the content of the matrix it may carry. *)
Definition forget_matrix {F} (ev : event F) : event F :=
  match ev with
  | EvSaveMatrix _ file => EvSaveMatrix [] file
  | _ => ev
  end.

(** ** More of the concrete environment *)

(** Masks for the data of [Demo]: one with the extents of a volume, one
    with a volume axis of its own, one a slice short; and a prediction
    with four axes. *)
Module Demo2.

Definition mask : Image := mkImage "mask.mif" [4; 4; 6] ∅.

Definition mask4 : Image := mkImage "mask4.mif" [4; 4; 6; 2] ∅.

Definition mask_short : Image := mkImage "mask5.mif" [4; 4; 5] ∅.

Definition mssh4 : Image :=
  mkImage "mssh4.mif" [4; 4; 6; 5] {[ "shells" := "0,1000" ]}.

Definition files (name : string) : res Image :=
  if bool_decide (name = "mask.mif") then inr mask
  else if bool_decide (name = "mask4.mif") then inr mask4
  else if bool_decide (name = "mask5.mif") then inr mask_short
  else if bool_decide (name = "mssh4.mif") then inr mssh4
  else Demo.files name.

(** The environment of [Demo] with these files added. *)
Definition world : World Q :=
  mkWorld Q files (get_DW_scheme Demo.world) (parse_floats Demo.world)
          (stof Demo.world) (load_vector Demo.world) (load_matrix Demo.world)
          (save_error Demo.world) (positive Demo.world)
          (ssp_rejection Demo.world) (shells_error Demo.world)
          (optimizer Demo.world) (arrival Demo.world).

(** [dwislicealign dwi.mif <mssh> out.txt -mask <mask>]. *)
Definition args (mssh : string) (mask : option string) : Args :=
  mkArgs "dwi.mif" mssh "out.txt" mask None None None None None.

End Demo2.

(** * Properties *)

(** ** The enumeration order *)

Section EnumerateFacts.
Context {A : Type}.
Implicit Types (f : nat → nat → A).

(** One volume: its slice groups in order. *)
Lemma enumerate_inner (g : nat → A) l : (e ← l; [g e]) = g <$> l.
Proof. induction l as [|x l IH]; [done|]. rewrite bind_cons, IH. done. Qed.

(** The tasks of one more volume come after all earlier ones. *)
Lemma enumerate_S nv ne f :
  enumerate (S nv) ne f = enumerate nv ne f ++ (f nv <$> seq 0 ne).
Proof.
  unfold enumerate. rewrite seq_S, bind_app. f_equal.
  change (0 + nv) with nv. rewrite bind_singleton. apply enumerate_inner.
Qed.

Lemma enumerate_length nv ne f : length (enumerate nv ne f) = nv * ne.
Proof.
  induction nv as [|nv IH]; [done|].
  rewrite enumerate_S, length_app, IH, length_fmap, length_seq. lia.
Qed.

(** The task of volume [v] and slice group [e] is number [v * ne + e]. *)
Lemma enumerate_lookup nv ne f v e :
  v < nv → e < ne → enumerate nv ne f !! (v * ne + e) = Some (f v e).
Proof.
  induction nv as [|nv IH]; intros Hv He; [lia|].
  rewrite enumerate_S.
  destruct (decide (v = nv)) as [->|Hne].
  - rewrite lookup_app_r; rewrite enumerate_length; [|lia].
    replace (nv * ne + e - nv * ne) with e by lia.
    rewrite list_lookup_fmap, lookup_seq_lt by done. done.
  - rewrite lookup_app_l; [apply IH; lia|].
    rewrite enumerate_length. nia.
Qed.

End EnumerateFacts.

Lemma enumerate_fmap {A B} (g : A → B) nv ne (f : nat → nat → A) :
  g <$> enumerate nv ne f = enumerate nv ne (fun v e => g (f v e)).
Proof.
  induction nv as [|nv IH]; [reflexivity|].
  rewrite !enumerate_S, fmap_app, IH. f_equal.
  rewrite <- list_fmap_compose. reflexivity.
Qed.

(** The rows of the tasks, in enumeration order, count up from zero. *)
Lemma enumerate_rows nv ne :
  enumerate nv ne (fun v e => v * ne + e) = seq 0 (nv * ne).
Proof.
  induction nv as [|nv IH]; [done|].
  rewrite enumerate_S, IH.
  replace (S nv * ne) with (nv * ne + ne) by lia.
  rewrite seq_app. f_equal. simpl.
  etransitivity; [apply (fmap_add_seq (nv * ne) 0 ne)|]. by rewrite Nat.add_0_r.
Qed.

(** ** The sink *)

Section SinkFacts.
Context {F : Type}.
Implicit Types (s : SliceAlignSink F) (r : SliceIdx F) (rs : list (SliceIdx F)).

(** Results for different rows can be written in either order. *)
Lemma sink_apply_comm s r1 r2 :
  sink_row s r1 ≠ sink_row s r2 →
  sink_apply (sink_apply s r1) r2 = sink_apply (sink_apply s r2) r1.
Proof.
  intros Hne. unfold sink_apply, sink_row in *. simpl. f_equal.
  by apply list_insert_insert_ne.
Qed.

(** Results for pairwise different rows can be delivered in any order. *)
Lemma sink_fold_perm rs rs' :
  rs ≡ₚ rs' →
  ∀ s, NoDup (sink_row s <$> rs) →
       foldl sink_apply s rs = foldl sink_apply s rs'.
Proof.
  induction 1 as [|r l l' Hp IH|r1 r2 l|l1 l2 l3 H12 IH12 H23 IH23]; intros s Hnd.
  - done.
  - simpl. apply IH. rewrite fmap_cons in Hnd. apply NoDup_cons in Hnd as [_ Hnd].
    exact Hnd.
  - simpl. f_equal. apply sink_apply_comm.
    rewrite !fmap_cons in Hnd.
    apply NoDup_cons in Hnd as [Hin _]. intros Heq. apply Hin. rewrite Heq. left.
  - rewrite IH12 by done. apply IH23.
    by rewrite <- H12.
Qed.

(** Delivered in row order, the results fill the rows one after the
    other. *)
Lemma sink_fill ne rs :
  ∀ pre : list (option (Vec6 F)),
    (fun r => vol r * ne + exc r) <$> rs = seq (length pre) (length rs) →
    foldl sink_apply (mkSink ne (pre ++ replicate (length rs) None)) rs
    = mkSink ne (pre ++ ((fun r => Some (motion r)) <$> rs)).
Proof.
  induction rs as [|r rs IH]; intros pre Hrows.
  - done.
  - simpl in Hrows. injection Hrows as Hr Hrs.
    simpl. unfold sink_apply at 2, sink_row. simpl. rewrite Hr.
    rewrite insert_app_r_alt by lia. rewrite Nat.sub_diag. simpl.
    specialize (IH (pre ++ [Some (motion r)])).
    rewrite length_app, Nat.add_1_r in IH. specialize (IH Hrs).
    rewrite <- !app_assoc in IH. exact IH.
Qed.

End SinkFacts.

(** ** Blocks that leave the trace alone *)

Section Parametric.
Context {F : Type}.

Lemma silent_ret {A} (x : A) : silent (@ret F A x).
Proof. done. Qed.

Lemma silent_throw {A} e : silent (@throw F A e).
Proof. done. Qed.

Lemma silent_undefined {A} u : silent (@undefined F A u).
Proof. done. Qed.

Lemma silent_call {A} (r : res A) : silent (@call F A r).
Proof. by destruct r. Qed.

Lemma silent_bind {A B} (m : M F A) (k : A → M F B) :
  silent m → (∀ x, silent (k x)) → silent (bind m k).
Proof.
  intros Hm Hk tr. unfold bind. rewrite (Hm tr), (Hm []).
  destruct (snd (m [])) as [x|e|u]; simpl; [apply Hk|done..].
Qed.

Lemma silent_if {A} (b : bool) (m1 m2 : M F A) :
  silent m1 → silent m2 → silent (if b then m1 else m2).
Proof. by destruct b. Qed.

Lemma silent_size im axis : silent (@size F im axis).
Proof. unfold size. destruct (_ !! _); done. Qed.

Lemma silent_check_dimensions in1 in2 : silent (@check_dimensions F in1 in2).
Proof. unfold check_dimensions. by destruct (dimensions_match _ _). Qed.

Lemma silent_check_dimensions_axes in1 in2 i j :
  silent (@check_dimensions_axes F in1 in2 i j).
Proof.
  unfold check_dimensions_axes. by destruct (dimensions_match_axes _ _ _ _).
Qed.

Lemma silent_open (w : World F) name : silent (open w name).
Proof. apply silent_call. Qed.

(** From the empty trace a silent block returns the empty trace. *)
Lemma silent_nil {A} (m : M F A) t o : silent m → m [] = (t, o) → t = [].
Proof. intros Hs H. rewrite (Hs []) in H. by simplify_eq. Qed.

End Parametric.

Create HintDb silent.
#[local] Hint Resolve silent_ret silent_throw silent_undefined silent_call
  silent_size silent_check_dimensions silent_check_dimensions_axes
  silent_open : silent.

Ltac silent_tac :=
  repeat first
    [ apply silent_bind; [|intros ?]
    | apply silent_if
    | match goal with |- silent (match ?x with _ => _ end) => destruct x end
    | solve [auto with silent] ].

Section Blocks.
Context {F : Type} (F0 F1 : F).
Implicit Types (w : World F) (a : Args) (tr : trace F).

Lemma run_inputs_silent w a : silent (run_inputs w a).
Proof. unfold run_inputs. silent_tac. Qed.

Lemma run_mb_silent a data : silent (@run_mb F a data).
Proof. unfold run_mb. silent_tac. Qed.

Lemma run_init_silent w a data : silent (run_init F0 w a data).
Proof. unfold run_init. silent_tac. Qed.

End Blocks.

(** ** The blocks of [run], case by case *)

Section RunFacts.
Context {F : Type} (F0 F1 : F).
Implicit Types (w : World F) (a : Args) (tr : trace F).

(** Lines 101-116 unfolded: the default kernel of line 102, then the
    scalar reading and, after a [std::invalid_argument] of the scalar
    reading, the vector reading. *)
Lemma run_ssp_spec w a tr :
  run_ssp F1 w a tr =
  match new_SSP_scalar (positive w) (ssp_rejection w) F1 with
  | inl e => (tr, Throw e)
  | inr dflt =>
      match opt_ssp a with
      | None => (tr, Ok dflt)
      | Some t =>
          match scalar_reading w t with
          | inr ssp => (tr ++ [EvStof t], Ok ssp)
          | inl e =>
              if bool_decide (e = std_invalid_argument) then
                (tr ++ [EvStof t; EvLoadVector t],
                 match vector_reading w t with
                 | inr ssp => Ok ssp
                 | inl _ => Throw (MRException "Invalid argument for SSP.")
                 end)
              else (tr ++ [EvStof t], Throw e)
          end
      end
  end.
Proof.
  unfold run_ssp, SSP_scalar, SSP_vector. unfold bind at 1, call at 1.
  destruct (new_SSP_scalar _ _ F1) as [e|dflt]; [done|].
  unfold ret at 1. destruct (opt_ssp a) as [t|]; [|done].
  unfold scalar_reading, vector_reading.
  unfold try_catch, std_stof, load_vector_f, bind, emit, call, ret, throw,
    catch_invalid_argument, catch_all.
  destruct (stof w t) as [x pos| |]; simpl.
  - destruct (new_SSP_scalar _ _ x) as [e|ssp]; [|done].
    case_bool_decide; [|done].
    destruct (load_vector w t) as [e'|v]; simpl;
      [by rewrite <- app_assoc|].
    destruct (new_SSP_vector _ v); by rewrite <- app_assoc.
  - destruct (load_vector w t) as [e'|v]; simpl;
      [by rewrite <- app_assoc|].
    destruct (new_SSP_vector _ v); by rewrite <- app_assoc.
  - done.
Qed.

(** The SSP block only records its own two readings. *)
Lemma run_ssp_parse_only w a tr o :
  run_ssp F1 w a [] = (tr, o) → Forall (fun ev => is_parse_event ev = true) tr.
Proof.
  rewrite run_ssp_spec. intros H.
  repeat case_match; simplify_eq; repeat constructor.
Qed.

(** Laws of the command monad, at a given trace. *)
Lemma bind_assoc {A B C} (m : M F A) (k : A → M F B) (k' : B → M F C) tr :
  bind (bind m k) k' tr = bind m (fun x => bind (k x) k') tr.
Proof. unfold bind. by destruct (m tr) as [t [x|e|u]]. Qed.

Lemma bind_ext {A B} (m : M F A) (k k' : A → M F B) tr :
  (∀ x t, k x t = k' x t) → bind m k tr = bind m k' tr.
Proof. intros H. unfold bind. destruct (m tr) as [t [x|e|u]]; [apply H|done..]. Qed.

Lemma bind_ret {A B} (x : A) (k : A → M F B) tr : bind (ret x) k tr = k x tr.
Proof. done. Qed.

(** [run] is its configuration phase followed by the pipeline phase. *)
Lemma run_split w a tr :
  run F0 F1 w a tr = bind (run_config F0 F1 w a) (run_pipeline w a) tr.
Proof.
  unfold run, run_config. rewrite bind_assoc. apply bind_ext.
  intros [[[[data grad] mssh] bvals] mask] t.
  rewrite bind_assoc. apply bind_ext. intros mb t1.
  rewrite bind_assoc. apply bind_ext. intros ssp t2.
  rewrite bind_assoc. apply bind_ext. intros init t3.
  rewrite bind_assoc. apply bind_ext. intros nv t4.
  rewrite bind_assoc. apply bind_ext. intros nz t5.
  rewrite bind_ret. reflexivity.
Qed.

(** Lines 133-141 unfolded. *)
Lemma run_multiecho_spec w a data mssh pipe tr :
  run_multiecho w a data mssh pipe tr =
  match opt_multiecho a with
  | None => (tr, Ok pipe)
  | Some (f1, f2) =>
      match image_open w f1 with
      | inl e => (tr, Throw e)
      | inr data2 =>
          if dimensions_match data data2 then
            match image_open w f2 with
            | inl e => (tr, Throw e)
            | inr mssh2 =>
                if dimensions_match mssh mssh2
                then (tr ++ [EvSetMultiecho],
                      Ok (set_multiecho pipe data2 mssh2))
                else (tr, Throw (dimension_mismatch mssh mssh2))
            end
          else (tr, Throw (dimension_mismatch data data2))
      end
  end.
Proof.
  unfold run_multiecho. destruct (opt_multiecho a) as [[f1 f2]|]; [|done].
  unfold bind, open, call, check_dimensions, ret, throw, emit.
  destruct (image_open w f1) as [e|data2]; [done|].
  destruct (dimensions_match data data2); [|done].
  destruct (image_open w f2) as [e|mssh2]; [done|].
  by destruct (dimensions_match mssh mssh2).
Qed.

(** The second-echo block has no undefined behaviour, and it extends the
    trace only when it succeeds. *)
Lemma run_multiecho_cases w a data mssh pipe tr tr' o :
  run_multiecho w a data mssh pipe tr = (tr', o) →
  (∃ p, o = Ok p ∧ (tr' = tr ∨ tr' = tr ++ [EvSetMultiecho]))
  ∨ (∃ e, o = Throw e ∧ tr' = tr ∧ is_Some (opt_multiecho a)).
Proof.
  rewrite run_multiecho_spec. intros H.
  repeat case_match; simplify_eq; eauto 10.
Qed.

(** A run either gets through the configuration and continues with the
    pipeline, or ends where the configuration ends. *)
Lemma run_cases w a tr o :
  run F0 F1 w a [] = (tr, o) →
  (∃ c ptr, configured F0 F1 w a c ptr ∧ run_pipeline w a c ptr = (tr, o))
  ∨ (∃ e, run_config F0 F1 w a [] = (tr, Throw e) ∧ o = Throw e)
  ∨ (∃ u, run_config F0 F1 w a [] = (tr, Undefined u) ∧ o = Undefined u).
Proof.
  rewrite run_split. unfold bind.
  destruct (run_config F0 F1 w a []) as [t [c|e|u]] eqn:Hc; intros H.
  - left. by exists c, t.
  - right. left. exists e. by simplify_eq.
  - right. right. exists u. by simplify_eq.
Qed.

(** Lines 71-89 unfolded. *)
Lemma run_inputs_spec w a tr :
  run_inputs w a tr =
  match image_open w (arg_data a) with
  | inl e => (tr, Throw e)
  | inr data =>
  match get_DW_scheme w data with
  | inl e => (tr, Throw e)
  | inr grad =>
  match image_open w (arg_mssh a) with
  | inl e => (tr, Throw e)
  | inr mssh =>
  if bool_decide (ndim mssh ≠ 5)
  then (tr, Throw (MRException "5-D MSSH image expected."))
  else
  match img_keyval mssh !! "shells" with
  | None => (tr, Undefined UB_end_iterator)
  | Some s =>
  match parse_floats w s with
  | inl e => (tr, Throw e)
  | inr bvals =>
  match opt_mask a with
  | None => (tr, Ok (data, grad, mssh, bvals, None))
  | Some f =>
  match image_open w f with
  | inl e => (tr, Throw e)
  | inr m =>
  if dimensions_match_axes data m 0 3
  then (tr, Ok (data, grad, mssh, bvals, Some m))
  else (tr, Throw (dimension_mismatch data m))
  end end end end end end end.
Proof.
  unfold run_inputs, bind, open, call, check_dimensions_axes, ret, throw,
    undefined.
  destruct (image_open w (arg_data a)) as [e|data]; [done|].
  destruct (get_DW_scheme w data) as [e|grad]; [done|].
  destruct (image_open w (arg_mssh a)) as [e|mssh]; [done|].
  destruct (bool_decide (ndim mssh ≠ 5)); [done|].
  destruct (img_keyval mssh !! "shells") as [s|]; [|done].
  destruct (parse_floats w s) as [e|bvals]; [done|].
  destruct (opt_mask a) as [f|]; [|done].
  destruct (image_open w f) as [e|m]; [done|].
  by destruct (dimensions_match_axes data m 0 3).
Qed.

(** Lines 91-99 unfolded. *)
Lemma run_mb_spec a data tr :
  @run_mb F a data tr =
  match img_dims data !! 2 with
  | None => (tr, Undefined UB_axis_range)
  | Some nz =>
      let mb := get_option_value (opt_mb a) 0 in
      if bool_decide (mb = 0 ∨ mb = nz) then (tr, Ok nz)
      else if bool_decide (nz mod mb ≠ 0)
           then (tr, Throw (MRException "multiband factor invalid."))
           else (tr, Ok mb)
  end.
Proof.
  unfold run_mb, bind, size, ret, throw, undefined.
  destruct (img_dims data !! 2) as [nz|]; [|done]. simpl.
  by repeat case_bool_decide.
Qed.

(** Lines 118-126 unfolded. *)
Lemma run_init_spec w a data tr :
  run_init F0 w a data tr =
  match img_dims data !! 3 with
  | None => (tr, Undefined UB_axis_range)
  | Some nv =>
  match opt_init a with
  | None => (tr, Ok (zero_matrix F0 nv 6))
  | Some f =>
  match load_matrix w f with
  | inl e => (tr, Throw e)
  | inr init =>
  if bool_decide (m_cols init ≠ 6)
  then (tr, Throw (MRException "dimension mismatch in motion initialisaton."))
  else
  match img_dims data !! 2 with
  | None => (tr, Undefined UB_axis_range)
  | Some nz =>
  if bool_decide (m_rows init = 0) then (tr, Undefined UB_division_by_zero)
  else if bool_decide ((nv * nz) mod m_rows init ≠ 0)
  then (tr, Throw (MRException "dimension mismatch in motion initialisaton."))
  else (tr, Ok init)
  end end end end.
Proof.
  unfold run_init, bind, size, call, ret, throw, undefined.
  destruct (img_dims data !! 3) as [nv|]; [|done]. simpl.
  destruct (opt_init a) as [f|]; [|done].
  destruct (load_matrix w f) as [e|init]; [done|].
  destruct (bool_decide (m_cols init ≠ 6)); [done|].
  destruct (img_dims data !! 2) as [nz|]; [|done].
  destruct (bool_decide (m_rows init = 0)); [done|].
  by destruct (bool_decide ((nv * nz) mod m_rows init ≠ 0)).
Qed.

(** The configuration phase, block after block. *)
Lemma run_config_spec w a :
  run_config F0 F1 w a [] =
  match run_inputs w a [] with
  | (_, Ok (data, grad, mssh, bvals, mask)) =>
      match @run_mb F a data [] with
      | (_, Ok mb) =>
          match run_ssp F1 w a [] with
          | (ptr, Ok ssp) =>
              match run_init F0 w a data [] with
              | (_, Ok init) =>
                  match img_dims data !! 3, img_dims data !! 2 with
                  | Some nv, Some nz =>
                      (ptr, Ok (mkConfig data grad mssh bvals mask nz nv mb
                                         ssp init))
                  | _, _ => (ptr, Undefined UB_axis_range)
                  end
              | (_, Throw e) => (ptr, Throw e)
              | (_, Undefined u) => (ptr, Undefined u)
              end
          | (ptr, Throw e) => (ptr, Throw e)
          | (ptr, Undefined u) => (ptr, Undefined u)
          end
      | (_, Throw e) => ([], Throw e)
      | (_, Undefined u) => ([], Undefined u)
      end
  | (_, Throw e) => ([], Throw e)
  | (_, Undefined u) => ([], Undefined u)
  end.
Proof.
  unfold run_config. unfold bind at 1.
  rewrite (run_inputs_silent w a []).
  destruct (snd (run_inputs w a [])) as [[[[[data grad] mssh] bvals] mask]|e|u];
    [|done..].
  unfold bind at 1. rewrite (@run_mb_silent F a data []).
  destruct (snd (@run_mb F a data [])) as [mb|e|u]; [|done..].
  unfold bind at 1.
  destruct (run_ssp F1 w a []) as [ptr [ssp|e|u]]; [|done..].
  unfold bind at 1. rewrite (run_init_silent F0 w a data ptr).
  rewrite (run_init_silent F0 w a data []).
  destruct (snd (run_init F0 w a data [])) as [init|e|u]; [|done..].
  unfold bind, size, ret, undefined. simpl.
  destruct (img_dims data !! 3) as [nv|]; [|done].
  by destruct (img_dims data !! 2) as [nz|].
Qed.

(** The configuration phase records nothing but readings of the SSP
    argument. *)
Lemma run_config_parse_only w a tr r :
  run_config F0 F1 w a [] = (tr, r) →
  Forall (fun ev => is_parse_event ev = true) tr.
Proof.
  rewrite run_config_spec. intros H.
  destruct (run_inputs w a []) as [t0 [[[[[data grad] mssh] bvals] mask]|e|u]];
    [|simplify_eq; constructor..].
  destruct (@run_mb F a data []) as [t1 [mb|e|u]]; [|simplify_eq; constructor..].
  destruct (run_ssp F1 w a []) as [ptr [ssp|e|u]] eqn:Hssp;
    apply run_ssp_parse_only in Hssp; [|by simplify_eq..].
  destruct (run_init F0 w a data []) as [t2 [init|e|u]]; [|by simplify_eq..].
  repeat case_match; by simplify_eq.
Qed.

(** What a successful configuration phase says about each block. *)
Lemma configured_inv w a c ptr :
  configured F0 F1 w a c ptr →
  run_inputs w a []
    = ([], Ok (cfg_data c, cfg_grad c, cfg_mssh c, cfg_bvals c, cfg_mask c))
  ∧ img_dims (cfg_data c) !! 2 = Some (cfg_nz c)
  ∧ img_dims (cfg_data c) !! 3 = Some (cfg_nv c)
  ∧ run_mb a (cfg_data c) [] = (([] : trace F), Ok (cfg_mb c))
  ∧ run_ssp F1 w a [] = (ptr, Ok (cfg_ssp c))
  ∧ run_init F0 w a (cfg_data c) [] = ([], Ok (cfg_init c)).
Proof.
  unfold configured. rewrite run_config_spec.
  rewrite (run_inputs_silent w a []).
  destruct (snd (run_inputs w a [])) as [[[[[data grad] mssh] bvals] mask]|e|u];
    [|done..].
  rewrite (@run_mb_silent F a data []).
  destruct (snd (@run_mb F a data [])) as [mb|e|u] eqn:Hmb; [|done..].
  destruct (run_ssp F1 w a []) as [ptr' [ssp|e|u]]; [|done..].
  rewrite (run_init_silent F0 w a data []).
  destruct (snd (run_init F0 w a data [])) as [init|e|u] eqn:Hinit; [|done..].
  destruct (img_dims data !! 3) as [nv|] eqn:Hnv; [|done].
  destruct (img_dims data !! 2) as [nz|] eqn:Hnz; [|done].
  intros H. simplify_eq. simpl.
  rewrite (@run_mb_silent F a data []), Hmb.
  rewrite (run_init_silent F0 w a data []), Hinit. done.
Qed.

End RunFacts.

(** ** Source, queue and sink together *)

Section PipelineFacts.
Context {F : Type}.
Implicit Types (w : World F) (a : Args) (tr : trace F) (c : Config F).

(** In enumeration order the tasks go to rows 0, 1, 2, ... of the sink. *)
Lemma source_tasks_rows (s : SliceAlignSource F) :
  (fun t => vol t * src_ne s + exc t) <$> source_tasks s
  = seq 0 (src_nv s * src_ne s).
Proof.
  unfold source_tasks. rewrite enumerate_fmap. simpl. apply enumerate_rows.
Qed.

Lemma source_tasks_length (s : SliceAlignSource F) :
  length (source_tasks s) = src_nv s * src_ne s.
Proof. apply enumerate_length. Qed.

(** Whatever order the results arrive in, the sink ends up holding them in
    the order of the tasks. *)
Lemma sink_collects (o : Optimizer F) (p : SliceAlignPipe F) nv nz mb grad
    bvals init (delivered : list (SliceIdx F)) :
  let tasks := source_tasks (new_SliceAlignSource nv nz mb grad bvals init) in
  delivered ≡ₚ pipe_apply o p <$> tasks →
  foldl sink_apply (new_SliceAlignSink nv nz mb) delivered
  = mkSink (nz / mb) (results_in_order o p tasks).
Proof.
  intros tasks Hperm. subst tasks.
  set (s := new_SliceAlignSource nv nz mb grad bvals init) in *.
  set (tasks := source_tasks s) in *.
  assert (Hrows : (fun r => vol r * (nz / mb) + exc r) <$> (pipe_apply o p <$> tasks)
                  = seq 0 (nv * (nz / mb))).
  { rewrite <- list_fmap_compose. apply (source_tasks_rows s). }
  rewrite (sink_fold_perm _ _ Hperm).
  - unfold new_SliceAlignSink, results_in_order.
    pose proof (sink_fill (nz / mb) (pipe_apply o p <$> tasks) []) as Hfill.
    assert (Hlen : length (pipe_apply o p <$> tasks) = nv * (nz / mb))
      by (rewrite length_fmap; apply (source_tasks_length s)).
    rewrite Hlen in Hfill. simpl in Hfill.
    rewrite Hfill by exact Hrows.
    by rewrite <- list_fmap_compose.
  - rewrite Hperm. unfold sink_row. simpl.
    rewrite Hrows. apply NoDup_seq.
Qed.

(** Lines 128-147 unfolded. *)
Lemma run_pipeline_spec w a c ptr :
  run_pipeline w a c ptr =
  match shells_error w (cfg_grad c) (cfg_bvals c) with
  | Some e => (ptr, Throw e)
  | None =>
  match run_multiecho w a (cfg_data c) (cfg_mssh c) (cfg_pipe a c) [] with
  | (me, Ok pipe) =>
      (ptr ++ [EvNewSource; EvNewPipe; EvNewSink] ++ me
           ++ [EvRunQueue (source_tasks (cfg_source c));
               EvSaveMatrix
                 (get_motion
                    (foldl sink_apply (cfg_sink c)
                       (arrival w (pipe_apply (optimizer w) pipe
                                     <$> source_tasks (cfg_source c)))))
                 (arg_out a)],
       match save_error w (arg_out a) with
       | Some e => Throw e
       | None => Ok tt
       end)
  | (_, Throw e) => (ptr ++ [EvNewSource; EvNewPipe; EvNewSink], Throw e)
  | (_, Undefined u) =>
      (ptr ++ [EvNewSource; EvNewPipe; EvNewSink], Undefined u)
  end
  end.
Proof.
  unfold run_pipeline, construct_SliceAlignSource.
  unfold bind at 1, call at 1.
  destruct (shells_error w (cfg_grad c) (cfg_bvals c)) as [e|]; [done|].
  fold (cfg_source c).
  unfold ret at 1, run_queue, save_matrix, bind, emit, ret, throw.
  rewrite !run_multiecho_spec.
  repeat case_match; simplify_eq; rewrite <- ?app_assoc; simpl; try done.
Qed.

End PipelineFacts.

(** ** What a run tells about its configuration *)

Section RunInversion.
Context {F : Type} (F0 F1 : F).
Implicit Types (w : World F) (a : Args) (tr : trace F) (c : Config F).

(** The data of a configuration is the image behind [argument[0]]. *)
Lemma run_inputs_data w a tr tr' data data' grad mssh bvals mask :
  image_open w (arg_data a) = inr data →
  run_inputs w a tr = (tr', Ok (data', grad, mssh, bvals, mask)) →
  data' = data.
Proof.
  intros Hopen Hin. rewrite run_inputs_spec, Hopen in Hin.
  repeat case_match; by simplify_eq.
Qed.

Lemma configured_data w a c ptr data :
  configured F0 F1 w a c ptr →
  image_open w (arg_data a) = inr data →
  cfg_data c = data.
Proof.
  intros Hc Hopen. apply configured_inv in Hc as (Hin & _).
  rewrite run_inputs_spec, Hopen in Hin.
  repeat case_match; by simplify_eq.
Qed.

(** The multiband factor of a configuration is the normalised one, and it
    divides the slice count. *)
Lemma configured_mb w a c ptr :
  configured F0 F1 w a c ptr →
  cfg_mb c = effective_mb (get_option_value (opt_mb a) 0) (cfg_nz c)
  ∧ cfg_nz c mod cfg_mb c = 0.
Proof.
  intros Hc. apply configured_inv in Hc as (_ & Hnz & _ & Hmb & _).
  rewrite run_mb_spec, Hnz in Hmb. unfold effective_mb. simpl in Hmb.
  destruct (bool_decide (_ ∨ _)).
  - injection Hmb as <-. split; [done|]. apply Nat.Div0.mod_same.
  - case_bool_decide as Hmod; [done|]. injection Hmb as <-.
    split; [done|]. lia.
Qed.

(** Without [-init] the initial motion is the zero matrix of line 120. *)
Lemma configured_init_default w a c ptr :
  configured F0 F1 w a c ptr →
  opt_init a = None →
  cfg_init c = zero_matrix F0 (cfg_nv c) 6.
Proof.
  intros Hc Hnone. apply configured_inv in Hc as (_ & _ & Hnv & _ & _ & Hinit).
  rewrite run_init_spec, Hnv, Hnone in Hinit. by simplify_eq.
Qed.

(** [set_multiecho] changes neither the iteration limit nor the kernel of
    the worker. *)
Lemma run_multiecho_niter w a data mssh pipe tr tr' pipe' :
  run_multiecho w a data mssh pipe tr = (tr', Ok pipe') →
  pipe_niter pipe' = pipe_niter pipe.
Proof.
  rewrite run_multiecho_spec. intros H.
  repeat case_match; by simplify_eq.
Qed.

Lemma run_multiecho_ssp w a data mssh pipe tr tr' pipe' :
  run_multiecho w a data mssh pipe tr = (tr', Ok pipe') →
  pipe_ssp pipe' = pipe_ssp pipe.
Proof.
  rewrite run_multiecho_spec. intros H.
  repeat case_match; by simplify_eq.
Qed.

(** The shape of every run that got past the configuration. *)
Lemma run_pipeline_cases w a c ptr tr o :
  run_pipeline w a c ptr = (tr, o) →
  (∃ e, o = Throw e
        ∧ tr = ptr
        ∧ shells_error w (cfg_grad c) (cfg_bvals c) = Some e)
  ∨ (∃ e, o = Throw e
        ∧ tr = ptr ++ [EvNewSource; EvNewPipe; EvNewSink]
        ∧ is_Some (opt_multiecho a)
        ∧ run_multiecho w a (cfg_data c) (cfg_mssh c) (cfg_pipe a c) []
          = ([], Throw e))
  ∨ (∃ me pipe,
        o = match save_error w (arg_out a) with
            | Some e => Throw e
            | None => Ok tt
            end
        ∧ run_multiecho w a (cfg_data c) (cfg_mssh c) (cfg_pipe a c) []
          = (me, Ok pipe)
        ∧ (me = [] ∨ me = [EvSetMultiecho])
        ∧ tr = ptr ++ [EvNewSource; EvNewPipe; EvNewSink] ++ me
                 ++ [EvRunQueue (source_tasks (cfg_source c));
                     EvSaveMatrix
                       (get_motion
                          (foldl sink_apply (cfg_sink c)
                             (arrival w (pipe_apply (optimizer w) pipe
                                           <$> source_tasks (cfg_source c)))))
                       (arg_out a)]).
Proof.
  rewrite run_pipeline_spec.
  destruct (shells_error w (cfg_grad c) (cfg_bvals c)) as [e|];
    [intros [= <- <-]; left; by exists e|].
  destruct (run_multiecho w a (cfg_data c) (cfg_mssh c) (cfg_pipe a c) [])
    as [me r] eqn:Hme.
  destruct (run_multiecho_cases _ _ _ _ _ _ _ _ Hme)
    as [(p & -> & Hcases)|(e & -> & -> & Hsome)]; intros H; simplify_eq.
  - right. right. exists me, p. done.
  - right. left. exists e. done.
Qed.

(** Under any delivery order the sink holds the results in task order. *)
Lemma ordered_output (o : Optimizer F) c pipe
    (arr : list (SliceIdx F) → list (SliceIdx F)) :
  (∀ l, arr l ≡ₚ l) →
  get_motion
    (foldl sink_apply (cfg_sink c)
       (arr (pipe_apply o pipe <$> source_tasks (cfg_source c))))
  = results_in_order o pipe (source_tasks (cfg_source c)).
Proof.
  intros Hfair. unfold cfg_sink, cfg_source.
  rewrite (sink_collects o pipe _ _ _ (cfg_grad c) (cfg_bvals c)
             (cfg_init c)); [done|]. apply Hfair.
Qed.

Lemma fair_output w c pipe :
  fair_queue w →
  get_motion
    (foldl sink_apply (cfg_sink c)
       (arrival w (pipe_apply (optimizer w) pipe
                     <$> source_tasks (cfg_source c))))
  = results_in_order (optimizer w) pipe (source_tasks (cfg_source c)).
Proof. apply ordered_output. Qed.

(** The trace of a run that completes. *)
Lemma run_Ok_inv w a tr :
  fair_queue w →
  run F0 F1 w a [] = (tr, Ok tt) →
  ∃ c ptr me pipe,
    configured F0 F1 w a c ptr
    ∧ run_multiecho w a (cfg_data c) (cfg_mssh c) (cfg_pipe a c) []
      = (me, Ok pipe)
    ∧ tr = ptr ++ [EvNewSource; EvNewPipe; EvNewSink] ++ me
             ++ [EvRunQueue (source_tasks (cfg_source c));
                 EvSaveMatrix
                   (results_in_order (optimizer w) pipe
                                     (source_tasks (cfg_source c)))
                   (arg_out a)].
Proof.
  intros Hfair Hrun.
  apply run_cases in Hrun as [(c & ptr & Hc & Hp)|[(e & _ & ?)|(u & _ & ?)]];
    [|done..].
  apply run_pipeline_cases in Hp
    as [(e & ? & _)|[(e & ? & _)|(me & pipe & _ & Hme & _ & ->)]]; [done..|].
  exists c, ptr, me, pipe. by rewrite fair_output.
Qed.

(** Where the start of the queue cannot be found in a trace. *)
Lemma not_queue_event (l : trace F) tasks :
  Forall (fun ev => is_registration_event ev = false) l →
  EvRunQueue tasks ∉ l.
Proof.
  intros Hall Hin. rewrite Forall_forall in Hall. by apply Hall in Hin.
Qed.

Lemma parse_not_queue_event (l : trace F) tasks :
  Forall (fun ev => is_parse_event ev = true) l →
  EvRunQueue tasks ∉ l.
Proof.
  intros Hall Hin. rewrite Forall_forall in Hall. by apply Hall in Hin.
Qed.

(** The queue only ever starts on the tasks of a configured source. *)
Lemma run_registered w a tr o tasks :
  run F0 F1 w a [] = (tr, o) →
  EvRunQueue tasks ∈ tr →
  ∃ c ptr, configured F0 F1 w a c ptr ∧ tasks = source_tasks (cfg_source c).
Proof.
  intros Hrun Hin.
  apply run_cases in Hrun as [(c & ptr & Hc & Hp)|[(e & Hc & _)|(u & Hc & _)]].
  - exists c, ptr. split; [done|].
    apply configured_inv in Hc as Hb. destruct Hb as (_ & _ & _ & _ & Hssp & _).
    apply run_ssp_parse_only in Hssp.
    apply run_pipeline_cases in Hp
      as [(e & _ & -> & _)|[(e & _ & -> & _)|(me & pipe & _ & _ & Hme & ->)]].
    + by apply parse_not_queue_event in Hin.
    + apply elem_of_app in Hin as [Hin|Hin].
      * by apply parse_not_queue_event in Hin.
      * apply not_queue_event in Hin; [done|repeat constructor].
    + apply elem_of_app in Hin as [Hin|Hin];
        [by apply parse_not_queue_event in Hin|].
      apply elem_of_app in Hin as [Hin|Hin];
        [apply not_queue_event in Hin; [done|repeat constructor]|].
      apply elem_of_app in Hin as [Hin|Hin].
      * apply not_queue_event in Hin; [done|].
        destruct Hme as [->| ->]; repeat constructor.
      * apply elem_of_cons in Hin as [Heq|Hin]; [by simplify_eq|].
        apply not_queue_event in Hin; [done|repeat constructor].
  - apply run_config_parse_only in Hc. by apply parse_not_queue_event in Hin.
  - apply run_config_parse_only in Hc. by apply parse_not_queue_event in Hin.
Qed.

End RunInversion.

(** ** Seeds and the worker without iterations *)

Section SeedFacts.
Context {F : Type}.

Lemma enumerate_Forall {A} (P : A → Prop) nv ne (f : nat → nat → A) :
  (∀ v e, v < nv → e < ne → P (f v e)) → Forall P (enumerate nv ne f).
Proof.
  induction nv as [|nv IH]; intros H; [constructor|].
  rewrite enumerate_S. apply Forall_app. split.
  - apply IH. intros; apply H; lia.
  - apply Forall_fmap, Forall_forall. intros e He.
    apply elem_of_seq in He. apply H; lia.
Qed.

(** A task reads an existing row of the initial matrix. *)
Lemma init_row_lt N nv ne v e :
  0 < N → v < nv → e < ne → init_row N nv ne v e < N.
Proof.
  intros HN Hv He. unfold init_row.
  apply Nat.Div0.div_lt_upper_bound.
  assert (v * ne + e < nv * ne) as Hlt.
  { assert (S v * ne ≤ nv * ne) by (apply Nat.mul_le_mono_r; lia). lia. }
  rewrite (Nat.mul_comm (nv * ne) N), (Nat.mul_comm _ N).
  apply Nat.mul_lt_mono_pos_l; done.
Qed.

(** With one row per volume, every slice group of a volume reads the row
    of that volume. *)
Lemma init_row_per_volume nv ne v e :
  v < nv → e < ne → init_row nv nv ne v e = v.
Proof.
  intros Hv He. unfold init_row. symmetry.
  assert (e * nv < nv * ne).
  { rewrite (Nat.mul_comm nv ne). apply Nat.mul_lt_mono_pos_r; lia. }
  apply (Nat.div_unique _ _ _ (e * nv)); lia.
Qed.

Lemma last_two {A} (l : list A) x y : last (l ++ [x; y]) = Some y.
Proof. change [x; y] with ([x] ++ [y]). by rewrite app_assoc, last_snoc. Qed.

Lemma pipe_apply_zero (o : Optimizer F) (p : SliceAlignPipe F) t :
  pipe_niter p = 0 → pipe_apply o p t = t.
Proof. unfold pipe_apply. intros ->. by destruct t. Qed.

Lemma results_in_order_zero (o : Optimizer F) (p : SliceAlignPipe F) tasks :
  pipe_niter p = 0 →
  results_in_order o p tasks = Some <$> (motion <$> tasks).
Proof.
  intros Hp. unfold results_in_order.
  induction tasks as [|t tasks IH]; [done|].
  rewrite !fmap_cons, IH, pipe_apply_zero; done.
Qed.

Lemma source_tasks_motion (s : SliceAlignSource F) :
  motion <$> source_tasks s = tiled_init (src_init s) (src_nv s) (src_ne s).
Proof. unfold source_tasks, tiled_init. by rewrite enumerate_fmap. Qed.

End SeedFacts.

(** ** Claims on the pipeline *)

Section PipelineClaims.
Context {F : Type} (F0 F1 : F).
Implicit Types (w : World F) (a : Args) (tr : trace F) (c : Config F).

(** C1.  A run that completes writes a motion matrix with
    volumeCount x (sliceCount / mb) rows of six columns, [mb] being the
    multiband factor after normalisation (0 and sliceCount both stand for
    sliceCount); the row of volume [v] and slice group [e] is row
    [v * (sliceCount / mb) + e] and holds the result of that task, seeded
    from the initial motion matrix; and in volume-to-volume mode the
    matrix has volumeCount rows. *)
Theorem output_matrix_shape w a tr data nz nv :
  fair_queue w →
  image_open w (arg_data a) = inr data →
  img_dims data !! 2 = Some nz →
  img_dims data !! 3 = Some nv →
  0 < nz →
  run F0 F1 w a [] = (tr, Ok tt) →
  let mb := effective_mb (get_option_value (opt_mb a) 0) nz in
  let ne := nz / mb in
  ∃ m pipe init,
    last tr = Some (EvSaveMatrix m (arg_out a))
    ∧ run_init F0 w a data [] = ([], Ok init)
    ∧ nz mod mb = 0
    ∧ length m = nv * ne
    ∧ Forall (fun row => ∃ x, row = Some x ∧ length (coeffs x) = 6) m
    ∧ (∀ v e, v < nv → e < ne →
         m !! (v * ne + e)
         = Some (Some (motion (pipe_apply (optimizer w) pipe
                                 (mkSliceIdx v e (tiled_row init nv ne v e))))))
    ∧ (get_option_value (opt_mb a) 0 = 0 ∨ get_option_value (opt_mb a) 0 = nz →
       mb = nz ∧ length m = nv).
Proof.
  intros Hfair Hopen Hnz Hnv Hpos Hrun mb ne.
  apply run_Ok_inv in Hrun as (c & ptr & me & pipe & Hc & Hme & ->); [|done].
  rewrite !app_assoc, last_two.
  pose proof (configured_data _ _ _ _ _ _ _ Hc Hopen) as Hdata.
  pose proof (configured_inv _ _ _ _ _ _ Hc)
    as (_ & Hnz' & Hnv' & _ & _ & Hinit).
  pose proof (configured_mb _ _ _ _ _ _ Hc) as [Hmb Hmod].
  unfold cfg_source, source_tasks.
  destruct c as [data' grad mssh bvals mask nz' nv' mb' ssp init].
  simpl in *. subst data'. rewrite Hnz in Hnz'. rewrite Hnv in Hnv'.
  injection Hnz' as <-. injection Hnv' as <-. fold mb in Hmb. subst mb'.
  fold ne.
  set (tasks := enumerate nv ne _).
  set (m := results_in_order (optimizer w) pipe tasks).
  assert (Hlen : length m = nv * ne).
  { unfold m, results_in_order, tasks.
    by rewrite length_fmap, enumerate_length. }
  exists m, pipe, init. split_and!.
  - done.
  - exact Hinit.
  - exact Hmod.
  - exact Hlen.
  - unfold m, results_in_order. apply Forall_fmap, Forall_forall.
    intros t _. simpl. eauto.
  - intros v e Hv He. unfold m, results_in_order, tasks.
    rewrite list_lookup_fmap, enumerate_lookup by done. done.
  - intros Hv2v. rewrite Hlen. unfold ne, mb, effective_mb.
    rewrite bool_decide_eq_true_2 by done.
    rewrite Nat.div_same by lia. lia.
Qed.

(** C2.  The run is the same whatever the order in which the queue hands
    the results of the workers to the sink: two delivery orders, each a
    permutation of the results, give the same trace, the same outcome and
    so the same saved matrix (the number of workers only shows in the
    delivery order; a single worker delivers in emission order); and in
    the sink the row of a result is the row of its task, whatever was
    delivered before it. *)
Theorem output_independent_of_arrival w a arr1 arr2 :
  (∀ l, arr1 l ≡ₚ l) →
  (∀ l, arr2 l ≡ₚ l) →
  run F0 F1 (with_arrival w arr1) a [] = run F0 F1 (with_arrival w arr2) a []
  ∧ (∀ c pipe r,
       get_motion
         (foldl sink_apply (cfg_sink c)
            (arr1 (pipe_apply (optimizer w) pipe
                     <$> source_tasks (cfg_source c)))) !! r
       = (fun t => Some (motion (pipe_apply (optimizer w) pipe t)))
           <$> source_tasks (cfg_source c) !! r).
Proof.
  intros H1 H2. split.
  - rewrite !run_split. apply bind_ext. intros c t.
    rewrite !run_pipeline_spec.
    change (shells_error (with_arrival w arr1)) with (shells_error w).
    change (shells_error (with_arrival w arr2)) with (shells_error w).
    destruct (shells_error w (cfg_grad c) (cfg_bvals c)); [done|].
    change (run_multiecho (with_arrival w arr1))
      with (run_multiecho (with_arrival w arr2)).
    destruct (run_multiecho (with_arrival w arr2) a (cfg_data c) (cfg_mssh c)
                (cfg_pipe a c) []) as [me [pipe|e|u]]; [|done..].
    change (arrival (with_arrival w arr1)) with arr1.
    change (arrival (with_arrival w arr2)) with arr2.
    change (optimizer (with_arrival w arr1)) with (optimizer w).
    change (optimizer (with_arrival w arr2)) with (optimizer w).
    by rewrite (ordered_output _ c pipe arr1 H1),
               (ordered_output _ c pipe arr2 H2).
  - intros c pipe r. rewrite (ordered_output _ c pipe arr1 H1).
    unfold results_in_order. by rewrite list_lookup_fmap.
Qed.

(** C3.  With [maxiter] absent or zero, no refinement takes place (the
    worker returns every task as it received it) and the saved matrix is
    the initial motion matrix tiled to one row per task. *)
Theorem zero_iterations_pass_through w a tr data nz nv :
  fair_queue w →
  image_open w (arg_data a) = inr data →
  img_dims data !! 2 = Some nz →
  img_dims data !! 3 = Some nv →
  opt_maxiter a = None ∨ opt_maxiter a = Some 0 →
  run F0 F1 w a [] = (tr, Ok tt) →
  let ne := nz / effective_mb (get_option_value (opt_mb a) 0) nz in
  ∃ init,
    run_init F0 w a data [] = ([], Ok init)
    ∧ last tr = Some (EvSaveMatrix (Some <$> tiled_init init nv ne) (arg_out a))
    ∧ (∀ p t, pipe_niter p = get_option_value (opt_maxiter a) 0 →
              pipe_apply (optimizer w) p t = t).
Proof.
  intros Hfair Hopen Hnz Hnv Hiter Hrun ne.
  assert (Hzero : get_option_value (opt_maxiter a) 0 = 0)
    by (by destruct Hiter as [-> | ->]).
  apply run_Ok_inv in Hrun as (c & ptr & me & pipe & Hc & Hme & ->); [|done].
  rewrite !app_assoc, last_two.
  pose proof (configured_data _ _ _ _ _ _ _ Hc Hopen) as Hdata.
  pose proof (configured_inv _ _ _ _ _ _ Hc) as (_ & Hnz' & Hnv' & _ & _ & Hinit).
  pose proof (configured_mb _ _ _ _ _ _ Hc) as [Hmb _].
  apply run_multiecho_niter in Hme as Hniter.
  unfold cfg_pipe in Hniter. simpl in Hniter. rewrite Hzero in Hniter.
  exists (cfg_init c). rewrite <- Hdata. split_and!.
  - exact Hinit.
  - do 2 f_equal.
    rewrite results_in_order_zero, source_tasks_motion by done.
    unfold cfg_source. simpl. rewrite Hmb.
    rewrite Hdata, Hnz in Hnz'. rewrite Hdata, Hnv in Hnv'.
    by simplify_eq.
  - intros p t Hp. apply pipe_apply_zero. by rewrite Hp.
Qed.

(** C8.  Without an [init] option the initial motion matrix is the one of
    line 120: volumeCount rows, six columns, every coefficient zero.  Every
    slice group of volume [v] reads its row [v], a row of that matrix, and
    so every task that enters the registration queue carries the identity
    transform: six zeros. *)
Theorem default_seed_is_identity w a tr o tasks data nz nv :
  opt_init a = None →
  image_open w (arg_data a) = inr data →
  img_dims data !! 2 = Some nz →
  img_dims data !! 3 = Some nv →
  run F0 F1 w a [] = (tr, o) →
  EvRunQueue tasks ∈ tr →
  let ne := nz / effective_mb (get_option_value (opt_mb a) 0) nz in
  ∃ init,
    run_init F0 w a data [] = ([], Ok init)
    ∧ m_rows init = nv
    ∧ m_cols init = 6
    ∧ (∀ i j, i < m_rows init → j < m_cols init → m_coeff init i j = F0)
    ∧ (∀ v e, v < nv → e < ne → init_row (m_rows init) nv ne v e = v)
    ∧ length tasks = nv * ne
    ∧ Forall (fun t => vol t < m_rows init
                       ∧ exc t < ne
                       ∧ motion t = tiled_row init nv ne (vol t) (exc t)
                       ∧ motion t = row6 init (vol t)
                       ∧ motion t = zero6 F0) tasks.
Proof.
  intros Hnone Hopen Hnz Hnv Hrun Hin ne.
  apply (run_registered _ _ _ _ _ _ _ Hrun) in Hin as (c & ptr & Hc & ->).
  pose proof (configured_data _ _ _ _ _ _ _ Hc Hopen) as Hdata.
  pose proof (configured_inv _ _ _ _ _ _ Hc) as (_ & Hnz' & Hnv' & _).
  pose proof (configured_mb _ _ _ _ _ _ Hc) as [Hmb _].
  pose proof (configured_init_default _ _ _ _ _ _ Hc Hnone) as Hinit.
  rewrite Hdata, Hnz in Hnz'. rewrite Hdata, Hnv in Hnv'.
  injection Hnz' as Hnz'. injection Hnv' as Hnv'.
  assert (Hrun_init : run_init F0 w a data [] = ([], Ok (cfg_init c))).
  { by rewrite run_init_spec, Hnv, Hnone, Hinit, <- Hnv'. }
  assert (Hrows : m_rows (cfg_init c) = nv) by (by rewrite Hinit).
  assert (Hcols : m_cols (cfg_init c) = 6) by (by rewrite Hinit).
  assert (Hzero : ∀ i j, i < m_rows (cfg_init c) → j < m_cols (cfg_init c) →
            m_coeff (cfg_init c) i j = F0) by (by rewrite Hinit).
  assert (Hne : src_ne (cfg_source c) = ne).
  { unfold cfg_source, ne. simpl. by rewrite Hmb, <- Hnz'. }
  exists (cfg_init c). split_and!; [done..| | |].
  - intros v e. rewrite Hrows. apply init_row_per_volume.
  - rewrite source_tasks_length, Hne. simpl. by rewrite <- Hnv'.
  - apply enumerate_Forall. intros v e Hv He. simpl in Hv.
    rewrite Hne in He. rewrite <- Hnv' in Hv.
    assert (Hseed : seed (cfg_source c) v e = tiled_row (cfg_init c) nv ne v e).
    { unfold seed. rewrite Hne. simpl. by rewrite <- Hnv'. }
    assert (Hrow : tiled_row (cfg_init c) nv ne v e = row6 (cfg_init c) v).
    { unfold tiled_row. by rewrite Hrows, init_row_per_volume. }
    simpl. rewrite Hseed, Hrow, Hrows. split_and!; [done..|].
    unfold row6, zero6. rewrite !Hzero by (rewrite ?Hrows, ?Hcols; lia).
    done.
Qed.

End PipelineClaims.

(** ** Claims on the configuration *)

Section ConfigurationClaims.
Context {F : Type} (F0 F1 : F).
Implicit Types (w : World F) (a : Args) (tr : trace F) (c : Config F).

Lemma none_of_parse (p : event F → bool) tr :
  (∀ ev, is_parse_event ev = true → p ev = false) →
  Forall (fun ev => is_parse_event ev = true) tr → none_of p tr.
Proof. intros Hp H. unfold none_of. eapply Forall_impl; [exact H|exact Hp]. Qed.

Lemma parse_not_component (ev : event F) :
  is_parse_event ev = true → is_component_event ev = false.
Proof. by destruct ev. Qed.

Lemma parse_not_registration (ev : event F) :
  is_parse_event ev = true → is_registration_event ev = false.
Proof. by destruct ev. Qed.

Lemma parse_not_output (ev : event F) :
  is_parse_event ev = true → is_output_event ev = false.
Proof. by destruct ev. Qed.

(** A run that stops in the configuration phase has built nothing,
    registered nothing and written nothing. *)
Lemma run_config_trace w a tr r :
  run_config F0 F1 w a [] = (tr, r) →
  none_of is_component_event tr
  ∧ none_of is_registration_event tr
  ∧ none_of is_output_event tr.
Proof.
  intros H. apply run_config_parse_only in H.
  split_and!; eapply none_of_parse; eauto using parse_not_component,
    parse_not_registration, parse_not_output.
Qed.

(** The configuration phase leaves either no trace or the trace of the SSP
    block. *)
Lemma run_config_stops w a tr r :
  run_config F0 F1 w a [] = (tr, r) →
  tr = [] ∨ tr = fst (run_ssp F1 w a []).
Proof.
  rewrite run_config_spec.
  rewrite (run_inputs_silent w a []).
  destruct (snd (run_inputs w a [])) as [[[[[data grad] mssh] bvals] mask]|e|u];
    [|intros; simplify_eq; by left..].
  rewrite (@run_mb_silent F a data []).
  destruct (snd (@run_mb F a data [])) as [mb|e|u];
    [|intros; simplify_eq; by left..].
  destruct (run_ssp F1 w a []) as [ptr [ssp|e|u]];
    [|intros; simplify_eq; by right..].
  destruct (run_init F0 w a data []) as [t2 [init|e|u]];
    [|intros; simplify_eq; by right..].
  intros; repeat case_match; simplify_eq; by right.
Qed.

(** Undefined behaviour in the configuration phase is that of the inputs
    block, an axis out of range or a zero divisor. *)
Lemma run_config_undefined w a tr u :
  run_config F0 F1 w a [] = (tr, Undefined u) →
  snd (run_inputs w a []) = Undefined u
  ∨ u = UB_axis_range
  ∨ u = UB_division_by_zero.
Proof.
  rewrite run_config_spec.
  destruct (run_inputs w a [])
    as [t0 [[[[[data grad] mssh] bvals] mask]|e|u']];
    [|done|intros; simplify_eq; by left].
  rewrite run_mb_spec, run_ssp_spec, run_init_spec. cbv zeta.
  intros H. right. repeat case_match; simplify_eq; auto.
Qed.

(** A command line with a configuration error never gets through the
    configuration blocks. *)
Lemma configuration_error_stops w a c ptr :
  configuration_error w a → ¬ configured F0 F1 w a c ptr.
Proof.
  intros Herr Hc.
  pose proof (configured_inv _ _ _ _ _ _ Hc)
    as (Hin & Hnz' & Hnv' & Hmb' & Hssp & Hinit').
  destruct Herr as [mssh Hmssh Hdim
                   |data f m Hdata Hmask Hm Hno
                   |data nz mb Hdata Hnz Hmb H0 Hne Hmod
                   |t e Ht Hscalar Hvector
                   |data nz nv f init Hdata Hnz Hnv Hopt Hload Hrows Hbad].
  - rewrite run_inputs_spec, Hmssh in Hin.
    rewrite bool_decide_eq_true_2 in Hin by done.
    repeat case_match; simplify_eq.
  - rewrite run_inputs_spec, Hdata, Hmask, Hm, Hno in Hin.
    repeat case_match; simplify_eq.
  - rewrite (configured_data _ _ _ _ _ _ _ Hc Hdata) in Hmb'.
    rewrite run_mb_spec, Hnz, Hmb in Hmb'. simpl in Hmb'.
    rewrite bool_decide_eq_false_2 in Hmb' by (intros [?|?]; done).
    by rewrite bool_decide_eq_true_2 in Hmb'.
  - rewrite run_ssp_spec, Ht, Hscalar in Hssp.
    destruct (new_SSP_scalar _ _ F1); [done|].
    case_bool_decide as He; [|done].
    destruct (Hvector He) as [e' He']. by rewrite He' in Hssp.
  - rewrite (configured_data _ _ _ _ _ _ _ Hc Hdata) in Hinit'.
    rewrite run_init_spec, Hnv, Hopt, Hload, Hnz in Hinit'.
    case_bool_decide as Hcols; [done|].
    assert (m_cols init = 6) as H6 by lia. specialize (Hrows H6).
    rewrite bool_decide_eq_false_2 in Hinit' by lia.
    destruct Hbad as [?|Hdiv]; [done|].
    rewrite bool_decide_eq_true_2 in Hinit'; [done|].
    intros Hmod. apply Hdiv. apply Nat.Lcm0.mod_divide; done.
Qed.

(** With a mismatch in the second echo the second-echo block throws. *)
Lemma second_echo_mismatch_throws w a c ptr :
  second_echo_mismatch w a →
  configured F0 F1 w a c ptr →
  ∃ e, run_multiecho w a (cfg_data c) (cfg_mssh c) (cfg_pipe a c) []
       = ([], Throw e).
Proof.
  intros Hbad Hc.
  pose proof (configured_inv _ _ _ _ _ _ Hc) as (Hin & _).
  rewrite run_multiecho_spec.
  destruct Hbad as [f1 f2 data data2 Hopt Hdata H1 Hdims
                   |f1 f2 mssh mssh2 Hopt Hmssh H2 Hdims].
  - rewrite (configured_data _ _ _ _ _ _ _ Hc Hdata), Hopt, H1.
    unfold dimensions_match.
    rewrite bool_decide_eq_false_2 by (intros ?; by destruct Hdims).
    eauto.
  - assert (cfg_mssh c = mssh) as ->.
    { rewrite run_inputs_spec, Hmssh in Hin.
      repeat case_match; by simplify_eq. }
    rewrite Hopt, H2.
    destruct (image_open w f1) as [e|data2]; [eauto|].
    destruct (dimensions_match (cfg_data c) data2); [|eauto].
    unfold dimensions_match.
    rewrite bool_decide_eq_false_2 by (intros ?; by destruct Hdims).
    eauto.
Qed.

(** C4, as amended.  A configuration error in the inputs or the options -
    the shape of the prediction or of the mask, the multiband factor, the
    SSP argument, the initial motion matrix - ends the run before any
    pipeline component is constructed: the run does not complete, and no
    component, no registration and no output is in its trace.  A mismatch
    of the second echo also ends the run before any task runs and with
    nothing written, but after construction: when the configuration
    blocks and the constructor of the source succeed, the exception is
    thrown with source, worker and sink constructed. *)
Theorem configuration_errors_eager w a tr o :
  run F0 F1 w a [] = (tr, o) →
  (configuration_error w a →
     (∀ u, o ≠ Ok u)
     ∧ none_of is_component_event tr
     ∧ none_of is_registration_event tr
     ∧ none_of is_output_event tr)
  ∧ (second_echo_mismatch w a →
     (∀ u, o ≠ Ok u)
     ∧ none_of is_registration_event tr
     ∧ none_of is_output_event tr
     ∧ (∀ c ptr,
          configured F0 F1 w a c ptr →
          shells_error w (cfg_grad c) (cfg_bvals c) = None →
          tr = ptr ++ [EvNewSource; EvNewPipe; EvNewSink]
          ∧ ∃ e, o = Throw e)).
Proof.
  intros Hrun. split.
  - intros Herr.
    apply run_cases in Hrun
      as [(c & ptr & Hc & _)|[(e & Hc & ->)|(u & Hc & ->)]].
    + by apply (configuration_error_stops _ _ _ _ Herr) in Hc.
    + split; [done|]. by apply run_config_trace in Hc.
    + split; [done|]. by apply run_config_trace in Hc.
  - intros Hbad.
    apply run_cases in Hrun
      as [(c & ptr & Hc & Hp)|[(e & Hc & ->)|(u & Hc & ->)]].
    + pose proof (run_config_trace _ _ _ _ Hc) as (_ & Hreg & Hout).
      destruct (second_echo_mismatch_throws _ _ _ _ Hbad Hc) as [e He].
      rewrite run_pipeline_spec, He in Hp.
      destruct (shells_error w (cfg_grad c) (cfg_bvals c)) as [e'|] eqn:Hsrc;
        injection Hp as <- <-.
      * split_and!; [done..|]. intros c' ptr' Hc'.
        unfold configured in Hc, Hc'. rewrite Hc in Hc'.
        injection Hc' as <- <-. by rewrite Hsrc.
      * split_and!; [done| | |].
        -- apply Forall_app. split; [done|repeat constructor].
        -- apply Forall_app. split; [done|repeat constructor].
        -- intros c' ptr' Hc' _.
           unfold configured in Hc, Hc'. rewrite Hc in Hc'.
           injection Hc' as <- <-. eauto.
    + pose proof (run_config_trace _ _ _ _ Hc) as (_ & Hreg & Hout).
      split_and!; [done..|]. intros c ptr Hc'.
      unfold configured in Hc'. by rewrite Hc in Hc'.
    + pose proof (run_config_trace _ _ _ _ Hc) as (_ & Hreg & Hout).
      split_and!; [done..|]. intros c ptr Hc'.
      unfold configured in Hc'. by rewrite Hc in Hc'.
Qed.

(** The trace of the SSP block: nothing, the scalar reading, or both
    readings. *)
Lemma run_ssp_trace w a tr o :
  run_ssp F1 w a [] = (tr, o) →
  tr = [] ∨ (∃ t, tr = [EvStof t]) ∨ (∃ t, tr = [EvStof t; EvLoadVector t]).
Proof.
  rewrite run_ssp_spec. intros H.
  repeat case_match; simplify_eq; eauto.
Qed.

(** C5, as amended.  The SSP argument is first read as a scalar
    ([std::stof], then the kernel of that width); when that attempt throws
    [std::invalid_argument] the argument is read as a vector
    ([load_vector], then the kernel of those weights), and when that fails
    too the run ends with the configuration error [Invalid argument for
    SSP.].  The kernel is the scalar width or the loaded weights.  Each of
    the two readings happens at most once per run, before the pipeline
    components exist, and the worker keeps the kernel decided there. *)
Theorem ssp_decided_once w a t :
  opt_ssp a = Some t →
  positive w F1 = true →
  (∀ e, scalar_reading w t = inl e → e = std_invalid_argument) →
  run_ssp F1 w a []
  = match scalar_reading w t with
    | inr ssp => ([EvStof t], Ok ssp)
    | inl _ =>
        ([EvStof t; EvLoadVector t],
         match vector_reading w t with
         | inr ssp => Ok ssp
         | inl _ => Throw (MRException "Invalid argument for SSP.")
         end)
    end
  ∧ (∀ ssp, scalar_reading w t = inr ssp →
       ∃ x pos, stof w t = StofValue x pos ∧ positive w x = true
                ∧ ssp = Scalar x)
  ∧ (∀ ssp, vector_reading w t = inr ssp →
       ∃ v, load_vector w t = inr v ∧ v ≠ [] ∧ ssp = Vector v)
  ∧ (∀ tr o, run F0 F1 w a [] = (tr, o) →
       ∃ post, (tr = post ∨ tr = fst (run_ssp F1 w a []) ++ post)
               ∧ none_of is_parse_event post)
  ∧ (∀ c ptr pipe me,
       configured F0 F1 w a c ptr →
       run_multiecho w a (cfg_data c) (cfg_mssh c) (cfg_pipe a c) []
       = (me, Ok pipe) →
       run_ssp F1 w a [] = (ptr, Ok (pipe_ssp pipe))).
Proof.
  intros Ht Hdflt Hscalar. split_and!.
  - rewrite run_ssp_spec, Ht. unfold new_SSP_scalar at 1. rewrite Hdflt.
    destruct (scalar_reading w t) as [e|ssp]; [|done].
    by rewrite (Hscalar e eq_refl), bool_decide_eq_true_2.
  - intros ssp. unfold scalar_reading, new_SSP_scalar.
    destruct (stof w t) as [x pos| |]; [|done..].
    destruct (positive w x) eqn:Hx; [|done].
    intros [= <-]. eauto.
  - intros ssp. unfold vector_reading, new_SSP_vector.
    destruct (load_vector w t) as [e|[|x v]]; [done..|].
    intros [= <-]. eauto.
  - intros tr o Hrun.
    apply run_cases in Hrun
      as [(c & ptr & Hc & Hp)|[(e' & Hc & _)|(u & Hc & _)]].
    + apply configured_inv in Hc as (_ & _ & _ & _ & Hssp & _).
      rewrite Hssp. simpl.
      apply run_pipeline_cases in Hp
        as [(e' & _ & -> & _)
           |[(e' & _ & -> & _)|(me & pipe & _ & _ & Hme & ->)]].
      * exists []. split; [right; by rewrite app_nil_r|constructor].
      * eexists. split; [by right|]. repeat constructor.
      * eexists. split; [by right|].
        destruct Hme as [-> | ->]; repeat constructor.
    + apply run_config_stops in Hc as [-> | ->].
      * exists []. split; [by left|constructor].
      * exists []. split; [right; by rewrite app_nil_r|constructor].
    + apply run_config_stops in Hc as [-> | ->].
      * exists []. split; [by left|constructor].
      * exists []. split; [right; by rewrite app_nil_r|constructor].
  - intros c ptr pipe me Hc Hme.
    apply configured_inv in Hc as (_ & _ & _ & _ & Hssp & _).
    apply run_multiecho_ssp in Hme. by rewrite Hme.
Qed.

(** C6.  A multiband factor that is neither 0 nor the slice count and does
    not divide the slice count ends the run with an error before anything
    else is done: whatever the rest of the command line, the run does not
    complete and its trace is empty (no SSP reading, no component, no
    registration, no output), and once the inputs are read the error is
    [multiband factor invalid.]. *)
Theorem invalid_multiband_rejected w a data nz mb :
  image_open w (arg_data a) = inr data →
  img_dims data !! 2 = Some nz →
  opt_mb a = Some mb →
  mb ≠ 0 → mb ≠ nz → nz mod mb ≠ 0 →
  (∀ inputs, run_inputs w a [] = ([], Ok inputs) →
     run F0 F1 w a []
     = ([], Throw (MRException "multiband factor invalid.")))
  ∧ (∀ tr o, run F0 F1 w a [] = (tr, o) → tr = [] ∧ ∀ u, o ≠ Ok u).
Proof.
  intros Hopen Hnz Hmb H0 Hne Hmod.
  assert (Hblock : ∀ t : trace F,
            run_mb a data t
            = (t, Throw (MRException "multiband factor invalid."))).
  { intros t. rewrite run_mb_spec, Hnz, Hmb. simpl.
    rewrite bool_decide_eq_false_2 by (intros [?|?]; done).
    by rewrite bool_decide_eq_true_2. }
  assert (Hcfg : ∀ inputs, run_inputs w a [] = ([], Ok inputs) →
            run_config F0 F1 w a []
            = ([], Throw (MRException "multiband factor invalid."))).
  { intros inputs Hin. rewrite run_config_spec, Hin.
    destruct inputs as [[[[data' grad] mssh] bvals] mask].
    apply (run_inputs_data _ _ _ _ _ _ _ _ _ _ Hopen) in Hin as ->.
    by rewrite Hblock. }
  split.
  - intros inputs Hin. rewrite run_split. unfold bind.
    by rewrite (Hcfg inputs Hin).
  - intros tr o. rewrite run_split. unfold bind.
    destruct (run_inputs w a []) as [t0 [inputs|e|u]] eqn:Hin;
      pose proof (silent_nil _ _ _ (run_inputs_silent w a) Hin) as ->.
    + rewrite (Hcfg inputs eq_refl). intros; by simplify_eq.
    + rewrite run_config_spec, Hin. intros; by simplify_eq.
    + rewrite run_config_spec, Hin. intros; by simplify_eq.
Qed.

(** A six-column matrix without rows takes line 124 to a [%] with a zero
    divisor. *)
Lemma empty_init_divides_by_zero w a data nz nv f init :
  img_dims data !! 2 = Some nz →
  img_dims data !! 3 = Some nv →
  opt_init a = Some f →
  load_matrix w f = inr init →
  m_cols init = 6 →
  m_rows init = 0 →
  run_init F0 w a data [] = ([], Undefined UB_division_by_zero).
Proof.
  intros Hnz Hnv Hinit Hload Hcols Hrows.
  rewrite run_init_spec, Hnv, Hinit, Hload, Hnz.
  rewrite bool_decide_eq_false_2 by lia.
  by rewrite bool_decide_eq_true_2.
Qed.

(** C7.  A supplied initial motion matrix (of at least one row, as the
    matrix loader returns them) whose column count is not 6 or whose row
    count does not divide volumeCount x sliceCount ends the run with an
    error while it is still being configured: no component is
    constructed, no task runs, nothing is written, and when the blocks
    before it succeed the error is the dimension mismatch of the motion
    initialisation. *)
Theorem invalid_init_rejected w a data nz nv f init :
  image_open w (arg_data a) = inr data →
  img_dims data !! 2 = Some nz →
  img_dims data !! 3 = Some nv →
  opt_init a = Some f →
  load_matrix w f = inr init →
  (m_cols init = 6 → 0 < m_rows init) →
  m_cols init ≠ 6 ∨ ¬ (m_rows init | nv * nz) →
  (∀ inputs mb ptr ssp,
     run_inputs w a [] = ([], Ok inputs) →
     run_mb a data [] = (([] : trace F), Ok mb) →
     run_ssp F1 w a [] = (ptr, Ok ssp) →
     run F0 F1 w a []
     = (ptr, Throw (MRException
                      "dimension mismatch in motion initialisaton.")))
  ∧ (∀ tr o, run F0 F1 w a [] = (tr, o) →
       (∀ u, o ≠ Ok u)
       ∧ none_of is_component_event tr
       ∧ none_of is_registration_event tr
       ∧ none_of is_output_event tr).
Proof.
  intros Hopen Hnz Hnv Hinit Hload Hrows Hbad.
  assert (Hblock : ∀ t : trace F,
            run_init F0 w a data t
            = (t, Throw (MRException
                           "dimension mismatch in motion initialisaton."))).
  { intros t. rewrite run_init_spec, Hnv, Hinit, Hload, Hnz.
    case_bool_decide as Hcols; [done|].
    assert (m_cols init = 6) as H6 by lia. specialize (Hrows H6).
    rewrite bool_decide_eq_false_2 by lia.
    destruct Hbad as [?|Hdiv]; [done|].
    rewrite bool_decide_eq_true_2; [done|].
    intros Hmod. apply Hdiv. apply Nat.Lcm0.mod_divide; done. }
  assert (Hcfg : ∀ tr r, run_config F0 F1 w a [] = (tr, r) → ∀ c, r ≠ Ok c).
  { intros tr r. rewrite run_config_spec.
    destruct (run_inputs w a [])
      as [t0 [[[[[data' grad] mssh] bvals] mask]|e|u]] eqn:Hin;
      [|intros; by simplify_eq..].
    apply (run_inputs_data _ _ _ _ _ _ _ _ _ _ Hopen) in Hin as ->.
    destruct (@run_mb F a data []) as [t1 [mb|e|u]];
      [|intros; by simplify_eq..].
    destruct (run_ssp F1 w a []) as [ptr [ssp|e|u]];
      [|intros; by simplify_eq..].
    rewrite Hblock. intros; by simplify_eq. }
  split.
  - intros inputs mb ptr ssp Hin Hmb Hssp.
    rewrite run_split. unfold bind. rewrite run_config_spec, Hin.
    destruct inputs as [[[[data' grad] mssh] bvals] mask].
    apply (run_inputs_data _ _ _ _ _ _ _ _ _ _ Hopen) in Hin as ->.
    by rewrite Hmb, Hssp, Hblock.
  - intros tr o Hrun.
    apply run_cases in Hrun
      as [(c & ptr & Hc & _)|[(e & Hc & ->)|(u & Hc & ->)]].
    + by apply Hcfg with (c := c) in Hc.
    + split; [done|]. by apply run_config_trace in Hc.
    + split; [done|]. by apply run_config_trace in Hc.
Qed.

(** C9.  Once the data, its gradient table and a five-dimensional MSSH
    image are read, [run] dereferences the end iterator of the header
    table exactly when the header has no [shells] entry: without the
    entry that is all the run does, and with the entry no later step
    reaches that dereference. *)
Theorem shells_key_precondition w a data grad mssh :
  image_open w (arg_data a) = inr data →
  get_DW_scheme w data = inr grad →
  image_open w (arg_mssh a) = inr mssh →
  ndim mssh = 5 →
  (img_keyval mssh !! "shells" = None
   ↔ run F0 F1 w a [] = ([], Undefined UB_end_iterator)).
Proof.
  intros Hdata Hgrad Hmssh Hdim.
  assert (Hin : run_inputs w a []
                = match img_keyval mssh !! "shells" with
                  | None => ([], Undefined UB_end_iterator)
                  | Some s => run_inputs w a []
                  end).
  { destruct (img_keyval mssh !! "shells") eqn:Hkey; [done|].
    rewrite run_inputs_spec, Hdata, Hgrad, Hmssh, Hkey.
    by rewrite bool_decide_eq_false_2 by (intros ?; done). }
  split.
  - intros Hkey. rewrite Hkey in Hin.
    rewrite run_split. unfold bind. by rewrite run_config_spec, Hin.
  - intros Hrun. destruct (img_keyval mssh !! "shells") as [s|] eqn:Hkey;
      [exfalso|done]. clear Hin.
    apply run_cases in Hrun
      as [(c & ptr & Hc & Hp)|[(e & _ & ?)|(u & Hc & Hu)]]; [|done|].
    + apply run_pipeline_cases in Hp
        as [(? & ? & _)|[(? & ? & _)|(? & ? & Ho & _)]]; [done..|].
      by destruct (save_error w (arg_out a)).
    + injection Hu as <-.
      apply run_config_undefined in Hc as [Hc|[?|?]]; [|done..].
      rewrite run_inputs_spec, Hdata, Hgrad, Hmssh, Hkey in Hc.
      rewrite bool_decide_eq_false_2 in Hc by (intros ?; done).
      repeat case_match; by simplify_eq.
Qed.

(** C10.  With an [ssp] option the vector is loaded exactly when the
    scalar attempt - [std::stof] and the kernel of the number it returns -
    throws [std::invalid_argument].  A positive value returned by
    [std::stof] is taken as the width however few characters were
    consumed, and nothing is loaded.  [std::out_of_range] is not caught:
    it leaves the block, and the run, as it is, and no [Invalid argument
    for SSP.] error is produced; the same holds for every exception of
    the scalar attempt other than [std::invalid_argument]. *)
Theorem ssp_fallback_only_on_invalid_argument w a t :
  opt_ssp a = Some t →
  positive w F1 = true →
  (EvLoadVector t ∈ fst (run_ssp F1 w a [])
   ↔ scalar_reading w t = inl std_invalid_argument)
  ∧ (∀ x pos, stof w t = StofValue x pos → positive w x = true →
       run_ssp F1 w a [] = ([EvStof t], Ok (Scalar x)))
  ∧ (stof w t = StofOutOfRange →
     run_ssp F1 w a [] = ([EvStof t], Throw std_out_of_range)
     ∧ (∀ inputs mb,
          run_inputs w a [] = ([], Ok inputs) →
          run_mb a (fst (fst (fst (fst inputs)))) [] = (([] : trace F), Ok mb) →
          run F0 F1 w a [] = ([EvStof t], Throw std_out_of_range)))
  ∧ (∀ e, scalar_reading w t = inl e → e ≠ std_invalid_argument →
       run_ssp F1 w a [] = ([EvStof t], Throw e)).
Proof.
  intros Ht Hdflt.
  assert (Hspec : run_ssp F1 w a [] =
            match scalar_reading w t with
            | inr ssp => ([EvStof t], Ok ssp)
            | inl e =>
                if bool_decide (e = std_invalid_argument) then
                  ([EvStof t; EvLoadVector t],
                   match vector_reading w t with
                   | inr ssp => Ok ssp
                   | inl _ => Throw (MRException "Invalid argument for SSP.")
                   end)
                else ([EvStof t], Throw e)
            end).
  { rewrite run_ssp_spec, Ht. unfold new_SSP_scalar at 1. by rewrite Hdflt. }
  assert (Hother : ∀ e, scalar_reading w t = inl e → e ≠ std_invalid_argument →
            run_ssp F1 w a [] = ([EvStof t], Throw e)).
  { intros e He Hne. by rewrite Hspec, He, bool_decide_eq_false_2. }
  split_and!.
  - rewrite Hspec. split.
    + destruct (scalar_reading w t) as [e|ssp]; simpl.
      * case_bool_decide as He; [by subst|]. simpl.
        intros Hel. apply list_elem_of_singleton in Hel. done.
      * intros Hel. apply list_elem_of_singleton in Hel. done.
    + intros ->. rewrite bool_decide_eq_true_2 by done. simpl.
      apply elem_of_cons. right. by apply list_elem_of_singleton.
  - intros x pos Hx Hpos. rewrite Hspec. unfold scalar_reading, new_SSP_scalar.
    by rewrite Hx, Hpos.
  - intros Hr.
    assert (run_ssp F1 w a [] = ([EvStof t], Throw std_out_of_range)) as Hssp.
    { apply Hother; [|done]. unfold scalar_reading. by rewrite Hr. }
    split; [done|]. intros inputs mb Hin Hmb.
    rewrite run_split. unfold bind. rewrite run_config_spec, Hin.
    destruct inputs as [[[[data grad] mssh] bvals] mask]. simpl in Hmb.
    by rewrite Hmb, Hssp.
  - exact Hother.
Qed.

End ConfigurationClaims.

(** ** The properties on the concrete environment *)

Lemma demo_world_fair : fair_queue Demo.world.
Proof. intros l. simpl. symmetry. apply Permutation_rev. Qed.

(** C1 on [-mb 2 -maxiter 2]: three volumes of three slice groups. *)
Lemma output_matrix_shape_witness :
  ∃ m, last (fst (Demo.execute (Demo.args (Some 2) None None (Some 2) None)))
       = Some (EvSaveMatrix m "out.txt")
       ∧ length m = 3 * (6 / 2).
Proof.
  destruct (output_matrix_shape 0%Q 1%Q Demo.world
              (Demo.args (Some 2) None None (Some 2) None) _ Demo.dwi 6 3
              demo_world_fair eq_refl eq_refl eq_refl ltac:(lia) eq_refl)
    as (m & pipe & init & Hlast & _ & _ & Hlen & _).
  exists m. split; [exact Hlast|exact Hlen].
Defined.

(** C2: results delivered last to first or in emission order. *)
Lemma output_independent_of_arrival_witness :
  run 0%Q 1%Q (with_arrival Demo.world (@rev _))
      (Demo.args (Some 2) None None (Some 2) None) []
  = run 0%Q 1%Q (with_arrival Demo.world (fun l => l))
        (Demo.args (Some 2) None None (Some 2) None) [].
Proof.
  apply (output_independent_of_arrival 0%Q 1%Q Demo.world
           (Demo.args (Some 2) None None (Some 2) None)
           (@rev _) (fun l => l)).
  - intros l. symmetry. apply Permutation_rev.
  - intros l. reflexivity.
Defined.

(** C3 on [-mb 3 -init init.txt -maxiter 0] with a second echo. *)
Lemma zero_iterations_pass_through_witness :
  ∃ init,
    Demo.matrices "init.txt" = inr init
    ∧ last (fst (Demo.execute (Demo.args (Some 3) (Some "1.5abc")
                             (Some "init.txt") (Some 0)
                             (Some ("echo2.mif", "mssh.mif")))))
      = Some (EvSaveMatrix (Some <$> tiled_init init 3 2) "out.txt").
Proof.
  destruct (zero_iterations_pass_through 0%Q 1%Q Demo.world
              (Demo.args (Some 3) (Some "1.5abc") (Some "init.txt") (Some 0)
                 (Some ("echo2.mif", "mssh.mif")))
              _ Demo.dwi 6 3 demo_world_fair eq_refl eq_refl eq_refl
              (or_intror eq_refl) eq_refl)
    as (init & Hinit & Hlast & _).
  exists init. split; [|exact Hlast].
  vm_compute in Hinit. injection Hinit as <-. reflexivity.
Defined.

(** The second echo [short.mif] has five slices where the data has
    six. *)
Lemma short_echo_mismatch :
  second_echo_mismatch Demo.world
    (Demo.args (Some 2) None None None (Some ("short.mif", "mssh.mif"))).
Proof.
  by apply (Mismatch_data Demo.world _ "short.mif" "mssh.mif" Demo.dwi
              Demo.echo2_short).
Defined.

(** C4: the mismatch of [short.mif] is found after source, worker and sink
    were constructed. *)
Lemma second_echo_checked_after_construction :
  Demo.execute (Demo.args (Some 2) None None None (Some ("short.mif", "mssh.mif")))
  = ([EvNewSource; EvNewPipe; EvNewSink],
     Throw (dimension_mismatch Demo.dwi Demo.echo2_short))
  ∧ ¬ errors_before_construction 0%Q 1%Q Demo.world
        (Demo.args (Some 2) None None None (Some ("short.mif", "mssh.mif"))).
Proof.
  split; [vm_compute; reflexivity|].
  intros H.
  destruct (H (or_intror short_echo_mismatch) _ _ eq_refl) as (_ & Hcomp & _).
  inversion Hcomp as [|ev l Hev _]. discriminate Hev.
Qed.

(** A command line for each kind of configuration error: a prediction
    with four axes, a mask a slice short, [-mb 4] with six slices, an SSP
    argument beyond the range of [float], an initial motion matrix with
    five columns. *)
Lemma demo_configuration_errors :
  Forall (configuration_error Demo2.world)
    [Demo2.args "mssh4.mif" None;
     Demo2.args "mssh.mif" (Some "mask5.mif");
     Demo.args (Some 4) None None None None;
     Demo.args None (Some "1e50") None None None;
     Demo.args None None (Some "five.txt") None None].
Proof.
  repeat apply Forall_cons_2; [| | | | |apply Forall_nil_2].
  - apply (Error_mssh_shape Demo2.world _ Demo2.mssh4); [reflexivity|].
    unfold ndim. simpl. lia.
  - by apply (Error_mask_shape Demo2.world _ Demo.dwi "mask5.mif"
                Demo2.mask_short).
  - apply (Error_multiband Demo2.world _ Demo.dwi 6 4); try reflexivity;
      simpl; lia.
  - apply (Error_ssp Demo2.world _ "1e50" std_out_of_range);
      [reflexivity..|discriminate].
  - apply (Error_init Demo2.world _ Demo.dwi 6 3 "five.txt"
             (mkMatrix 3 5 (fun _ _ => 0%Q))); try reflexivity.
    + simpl. lia.
    + left. simpl. lia.
Defined.

(** C4, as amended: each of these command lines ends the run with nothing
    constructed, and the second echo [short.mif] ends it with the three
    components constructed, nothing registered and nothing written. *)
Lemma configuration_errors_eager_witness :
  Forall (fun a => none_of is_component_event
                     (fst (run 0%Q 1%Q Demo2.world a [])))
    [Demo2.args "mssh4.mif" None;
     Demo2.args "mssh.mif" (Some "mask5.mif");
     Demo.args (Some 4) None None None None;
     Demo.args None (Some "1e50") None None None;
     Demo.args None None (Some "five.txt") None None]
  ∧ fst (Demo.execute (Demo.args (Some 2) None None None
                         (Some ("short.mif", "mssh.mif"))))
    = [EvNewSource; EvNewPipe; EvNewSink]
  ∧ none_of is_registration_event
      (fst (Demo.execute (Demo.args (Some 2) None None None
                            (Some ("short.mif", "mssh.mif"))))).
Proof.
  split_and!.
  - eapply Forall_impl; [exact demo_configuration_errors|].
    intros a Herr.
    destruct (run 0%Q 1%Q Demo2.world a []) as [tr o] eqn:Hrun.
    exact (proj1 (proj2 (proj1 (configuration_errors_eager 0%Q 1%Q Demo2.world
                                  a tr o Hrun) Herr))).
  - destruct (proj2 (configuration_errors_eager 0%Q 1%Q Demo.world
                       (Demo.args (Some 2) None None None
                          (Some ("short.mif", "mssh.mif"))) _ _ eq_refl)
                short_echo_mismatch) as (_ & _ & _ & Hafter).
    reflexivity.
  - exact (proj1 (proj2 (proj2 (configuration_errors_eager 0%Q 1%Q Demo.world
                                  (Demo.args (Some 2) None None None
                                     (Some ("short.mif", "mssh.mif")))
                                  _ _ eq_refl) short_echo_mismatch))).
Defined.

(** C5: [-ssp 1e50].  The scalar reading fails with [std::out_of_range],
    a vector file of that name exists, and yet no vector is loaded: the
    run ends with the exception of [std::stof]. *)
Lemma out_of_range_scalar_skips_vector :
  Demo.stof_table "1e50" = StofOutOfRange
  ∧ Demo.vectors "1e50" = inr [(1 # 1)%Q]
  ∧ run_ssp 1%Q Demo.world (Demo.args None (Some "1e50") None None None) []
    = ([EvStof "1e50"], Throw std_out_of_range)
  ∧ ¬ scalar_else_vector_else_fail 1%Q Demo.world
        (Demo.args None (Some "1e50") None None None).
Proof.
  split_and!; [reflexivity..|].
  intros H. specialize (H "1e50" eq_refl).
  assert (Hfails : ∀ ssp, scalar_reading Demo.world "1e50" ≠ inr ssp)
    by (intros ssp; discriminate).
  specialize (H Hfails). vm_compute in H. discriminate H.
Qed.

(** C5, as amended, on [-ssp ssp.txt]: no number in the argument, so the
    vector is loaded; and on [-ssp empty.txt]: no number in the argument
    and no weight in the file, so neither reading gives a kernel. *)
Lemma ssp_decided_once_witness :
  run_ssp 1%Q Demo.world (Demo.args None (Some "ssp.txt") None None None) []
  = ([EvStof "ssp.txt"; EvLoadVector "ssp.txt"],
     Ok (Vector [(1 # 4)%Q; (1 # 2)%Q; (1 # 4)%Q]))
  ∧ run_ssp 1%Q Demo.world (Demo.args None (Some "empty.txt") None None None)
      []
    = ([EvStof "empty.txt"; EvLoadVector "empty.txt"],
       Throw (MRException "Invalid argument for SSP.")).
Proof.
  split.
  - refine (proj1 (ssp_decided_once 0%Q 1%Q Demo.world
                     (Demo.args None (Some "ssp.txt") None None None)
                     "ssp.txt" eq_refl eq_refl _)).
    intros e [= <-]. reflexivity.
  - refine (proj1 (ssp_decided_once 0%Q 1%Q Demo.world
                     (Demo.args None (Some "empty.txt") None None None)
                     "empty.txt" eq_refl eq_refl _)).
    intros e [= <-]. reflexivity.
Defined.

(** C6 on [-mb 4] with six slices. *)
Lemma invalid_multiband_rejected_witness :
  Demo.execute (Demo.args (Some 4) None None None None)
  = ([], Throw (MRException "multiband factor invalid.")).
Proof.
  refine (proj1 (invalid_multiband_rejected 0%Q 1%Q Demo.world
                   (Demo.args (Some 4) None None None None) Demo.dwi 6 4
                   eq_refl eq_refl eq_refl _ _ _) _ eq_refl);
    simpl; lia.
Defined.

(** C7 on [-init seven.txt]: seven rows do not divide 3 x 6. *)
Lemma invalid_init_rejected_witness :
  Demo.execute (Demo.args None None (Some "seven.txt") None None)
  = ([], Throw (MRException "dimension mismatch in motion initialisaton.")).
Proof.
  refine (proj1 (invalid_init_rejected 0%Q 1%Q Demo.world
                   (Demo.args None None (Some "seven.txt") None None)
                   Demo.dwi 6 3 "seven.txt" _
                   eq_refl eq_refl eq_refl eq_refl eq_refl _ _)
                _ _ _ _ eq_refl eq_refl eq_refl).
  - simpl. lia.
  - right. simpl. intros [k Hk]. lia.
Defined.

(** C8 on the default command line: eighteen tasks, all seeded with
    zeros read from a matrix of three rows. *)
Lemma default_seed_is_identity_witness :
  ∃ tasks init,
    EvRunQueue tasks ∈ fst (Demo.execute (Demo.args (Some 1) None None None None))
    ∧ m_rows init = 3
    ∧ m_cols init = 6
    ∧ length tasks = 3 * (6 / 1)
    ∧ Forall (fun t => vol t < m_rows init
                       ∧ exc t < 6 / 1
                       ∧ motion t = tiled_row init 3 (6 / 1) (vol t) (exc t)
                       ∧ motion t = row6 init (vol t)
                       ∧ motion t = zero6 0%Q) tasks.
Proof.
  assert (Hin : ∃ tasks,
            EvRunQueue tasks
            ∈ fst (Demo.execute (Demo.args (Some 1) None None None None))).
  { eexists. vm_compute. apply elem_of_cons. right. apply elem_of_cons. right.
    apply elem_of_cons. right. apply elem_of_cons. left. reflexivity. }
  destruct Hin as [tasks Hin].
  destruct (default_seed_is_identity 0%Q 1%Q Demo.world
              (Demo.args (Some 1) None None None None) _ _ tasks
              Demo.dwi 6 3 eq_refl eq_refl eq_refl eq_refl eq_refl Hin)
    as (init & _ & Hrows & Hcols & _ & _ & Hlen & Hall).
  exists tasks, init. split_and!; [exact Hin|exact Hrows|exact Hcols| |].
  - exact Hlen.
  - exact Hall.
Defined.

(** C9 on a prediction without a [shells] entry. *)
Lemma shells_key_precondition_witness :
  run 0%Q 1%Q Demo.world
      (mkArgs "dwi.mif" "bare.mif" "out.txt" None None None None None None) []
  = ([], Undefined UB_end_iterator).
Proof.
  apply (shells_key_precondition 0%Q 1%Q Demo.world
           (mkArgs "dwi.mif" "bare.mif" "out.txt" None None None None None
                   None)
           Demo.dwi (mkMatrix 3 4 (fun _ _ => 0%Q)) Demo.mssh_bare
           eq_refl eq_refl eq_refl eq_refl).
  reflexivity.
Defined.

(** C10 on [-ssp 1.5abc]: three of six characters are a number, the rest
    is ignored; and on [-ssp -1]: the kernel rejects the width with an
    exception of its own, and no vector is tried. *)
Lemma ssp_fallback_only_on_invalid_argument_witness :
  Demo.stof_table "1.5abc" = StofValue (3 # 2)%Q 3
  ∧ run_ssp 1%Q Demo.world (Demo.args None (Some "1.5abc") None None None) []
    = ([EvStof "1.5abc"], Ok (Scalar (3 # 2)%Q))
  ∧ run_ssp 1%Q Demo.world (Demo.args None (Some "-1") None None None) []
    = ([EvStof "-1"], Throw Demo.bad_kernel).
Proof.
  split_and!; [reflexivity| |].
  - exact (proj1 (proj2 (ssp_fallback_only_on_invalid_argument 0%Q 1%Q
                           Demo.world
                           (Demo.args None (Some "1.5abc") None None None)
                           "1.5abc" eq_refl eq_refl))
             _ _ eq_refl eq_refl).
  - refine (proj2 (proj2 (proj2 (ssp_fallback_only_on_invalid_argument
                                   0%Q 1%Q Demo.world
                                   (Demo.args None (Some "-1") None None None)
                                   "-1" eq_refl eq_refl)))
              Demo.bad_kernel eq_refl _).
    discriminate.
Defined.

(** * Further properties of [run] *)

Section InputFacts.
Context {F : Type} (F0 F1 : F).
Implicit Types (w : World F) (a : Args) (tr : trace F) (c : Config F).

(** A continuation only matters on the results its block can return. *)
Lemma bind_ext_Ok {A B} (m : M F A) (k k' : A → M F B) tr :
  (∀ x t, m tr = (t, Ok x) → k x t = k' x t) → bind m k tr = bind m k' tr.
Proof.
  intros H. unfold bind.
  destruct (m tr) as [t [x|e|u]] eqn:Hm; [by apply H|done..].
Qed.

(** Equal blocks with equal continuations. *)
Lemma bind_cong {A B} (m m' : M F A) (k k' : A → M F B) tr :
  m tr = m' tr → (∀ x t, k x t = k' x t) → bind m k tr = bind m' k' tr.
Proof.
  intros Hm Hk. unfold bind. rewrite Hm.
  destruct (m' tr) as [t [x|e|u]]; [apply Hk|done..].
Qed.

(** The images of a successful inputs block are the opened arguments. *)
Lemma run_inputs_opened w a tr tr' data grad mssh bvals mask :
  run_inputs w a tr = (tr', Ok (data, grad, mssh, bvals, mask)) →
  image_open w (arg_data a) = inr data
  ∧ get_DW_scheme w data = inr grad
  ∧ image_open w (arg_mssh a) = inr mssh
  ∧ ndim mssh = 5
  ∧ is_Some (img_keyval mssh !! "shells").
Proof.
  rewrite run_inputs_spec.
  destruct (image_open w (arg_data a)) as [e|data']; [done|].
  destruct (get_DW_scheme w data') as [e|grad'] eqn:Hg; [done|].
  destruct (image_open w (arg_mssh a)) as [e|mssh']; [done|].
  case_bool_decide as Hdim; [done|].
  destruct (img_keyval mssh' !! "shells") as [s|] eqn:Hkey; [|done].
  assert (ndim mssh' = 5) by lia.
  destruct (parse_floats w s) as [e|bvals']; [done|].
  destruct (opt_mask a) as [f|]; [|intros; simplify_eq; split_and!; eauto].
  destruct (image_open w f) as [e|m]; [done|].
  destruct (dimensions_match_axes data' m 0 3); intros; simplify_eq;
    split_and!; eauto.
Qed.

(** A run that ends in its inputs block ends the same way, with nothing
    done. *)
Lemma run_inputs_failure w a r :
  run_inputs w a [] = ([], r) →
  (∀ x, r ≠ Ok x) →
  run F0 F1 w a []
  = ([], match r with
         | Ok _ => Ok tt
         | Throw e => Throw e
         | Undefined u => Undefined u
         end).
Proof.
  intros Hin Hr. rewrite run_split. unfold bind.
  rewrite run_config_spec, Hin. destruct r as [x|e|u]; [|done..].
  by destruct (Hr x).
Qed.

End InputFacts.

Section ExtraProperties.
Context {F : Type} (F0 F1 : F).
Implicit Types (w : World F) (a : Args) (tr : trace F) (c : Config F).

(** X1.  A prediction that is not five-dimensional ends the run with
    [5-D MSSH image expected.] and nothing done; the check comes before
    the header is searched for its shells, so a missing [shells] entry
    plays no part then. *)
Theorem mssh_must_be_5d w a data grad mssh :
  image_open w (arg_data a) = inr data →
  get_DW_scheme w data = inr grad →
  image_open w (arg_mssh a) = inr mssh →
  ndim mssh ≠ 5 →
  run F0 F1 w a [] = ([], Throw (MRException "5-D MSSH image expected.")).
Proof.
  intros Hdata Hgrad Hmssh Hdim.
  apply (run_inputs_failure F0 F1 w a (Throw _)); [|done].
  rewrite run_inputs_spec, Hdata, Hgrad, Hmssh.
  by rewrite bool_decide_eq_true_2.
Qed.

(** X2.  An exception thrown while the inputs are read - by opening the
    data, importing its gradient table, opening the prediction or parsing
    its shells - leaves [run] unchanged, with nothing done. *)
Theorem input_failure_aborts w a e :
  image_open w (arg_data a) = inl e
  ∨ (∃ data, image_open w (arg_data a) = inr data
             ∧ (get_DW_scheme w data = inl e
                ∨ ∃ grad, get_DW_scheme w data = inr grad
                          ∧ (image_open w (arg_mssh a) = inl e
                             ∨ ∃ mssh s,
                                 image_open w (arg_mssh a) = inr mssh
                                 ∧ ndim mssh = 5
                                 ∧ img_keyval mssh !! "shells" = Some s
                                 ∧ parse_floats w s = inl e))) →
  run F0 F1 w a [] = ([], Throw e).
Proof.
  intros H. apply (run_inputs_failure F0 F1 w a (Throw e)); [|done].
  rewrite run_inputs_spec.
  destruct H as [->|(data & -> & [->|(grad & -> & [->|H])])]; [done..|].
  destruct H as (mssh & s & -> & Hdim & -> & ->).
  by rewrite bool_decide_eq_false_2 by lia.
Qed.

(** X3.  A mask is compared with the data on the three spatial axes only:
    with three or more axes on both sides and equal extents along the
    first three it is accepted whatever further axes it has, and otherwise
    the run ends with the dimension mismatch and nothing done. *)
Theorem mask_checked_on_spatial_axes w a data grad mssh s bvals f m :
  image_open w (arg_data a) = inr data →
  get_DW_scheme w data = inr grad →
  image_open w (arg_mssh a) = inr mssh →
  ndim mssh = 5 →
  img_keyval mssh !! "shells" = Some s →
  parse_floats w s = inr bvals →
  opt_mask a = Some f →
  image_open w f = inr m →
  let spatial_match :=
    3 ≤ ndim data ∧ 3 ≤ ndim m
    ∧ take 3 (img_dims data) = take 3 (img_dims m) in
  (spatial_match →
   run_inputs w a [] = ([], Ok (data, grad, mssh, bvals, Some m)))
  ∧ (¬ spatial_match →
     run F0 F1 w a [] = ([], Throw (dimension_mismatch data m))).
Proof.
  intros Hdata Hgrad Hmssh Hdim Hkey Hb Hmask Hm spatial_match.
  assert (Hin : run_inputs w a []
                = if dimensions_match_axes data m 0 3
                  then ([], Ok (data, grad, mssh, bvals, Some m))
                  else ([], Throw (dimension_mismatch data m))).
  { rewrite run_inputs_spec, Hdata, Hgrad, Hmssh, Hkey, Hb, Hmask, Hm.
    by rewrite bool_decide_eq_false_2 by lia. }
  assert (Hiff : dimensions_match_axes data m 0 3 = true ↔ spatial_match).
  { unfold dimensions_match_axes, spatial_match. rewrite !drop_0.
    rewrite !andb_true_iff, !bool_decide_eq_true. tauto. }
  split.
  - intros Hok. apply Hiff in Hok. by rewrite Hin, Hok.
  - intros Hno. apply (run_inputs_failure F0 F1 w a (Throw _)); [|done].
    rewrite Hin. destruct (dimensions_match_axes data m 0 3); [|done].
    destruct Hno. by apply Hiff.
Qed.

(** X4.  The multiband factor is accepted exactly when it is 0 or divides
    the slice count; the factor the run continues with is the normalised
    one, it divides the slice count, and with slices present it lies
    between 1 and the slice count - a factor above the slice count is
    rejected. *)
Theorem multiband_factor_accepted a data nz tr mb' :
  img_dims data !! 2 = Some nz →
  let mb := get_option_value (opt_mb a) 0 in
  (@run_mb F a data tr = (tr, Ok mb')
   ↔ (mb = 0 ∨ nz mod mb = 0) ∧ mb' = effective_mb mb nz)
  ∧ (@run_mb F a data tr = (tr, Ok mb') →
     (mb' | nz) ∧ (0 < nz → 1 ≤ mb' ≤ nz ∧ mb ≤ nz)).
Proof.
  intros Hnz mb.
  assert (Hiff : @run_mb F a data tr = (tr, Ok mb')
                 ↔ (mb = 0 ∨ nz mod mb = 0) ∧ mb' = effective_mb mb nz).
  { rewrite run_mb_spec, Hnz. fold mb. cbv zeta. unfold effective_mb.
    destruct (decide (mb = 0 ∨ mb = nz)) as [Hv|Hv].
    - rewrite !bool_decide_eq_true_2 by done. split.
      + intros [= <-]. split; [|done].
        destruct Hv as [?| ->]; [by left|right; apply Nat.Div0.mod_same].
      + by intros [_ ->].
    - rewrite !bool_decide_eq_false_2 by done.
      case_bool_decide as Hmod.
      + split; [done|]. intros [[?|?] _]; [|done]. destruct Hv. by left.
      + split; [intros [= <-]; split; [right; lia|done]|by intros [_ ->]]. }
  split; [exact Hiff|].
  intros Hok. apply Hiff in Hok as [Hacc ->]. unfold effective_mb.
  case_bool_decide as Hv.
  - split; [done|]. intros Hpos. destruct Hv as [->| ->]; lia.
  - destruct Hacc as [?|Hmod]; [destruct Hv; by left|].
    assert (mb ≠ 0) by (intros ?; destruct Hv; by left).
    apply Nat.Lcm0.mod_divide in Hmod as Hdiv.
    split; [done|]. intros Hpos.
    apply Nat.divide_pos_le in Hdiv; lia.
Qed.

(** X5.  Volume-to-volume registration has three spellings: no [-mb]
    option, [-mb 0] and [-mb] with the slice count.  The three runs are
    the same. *)
Theorem volume_to_volume_spellings w a nz :
  (∀ data, image_open w (arg_data a) = inr data →
           img_dims data !! 2 = Some nz) →
  run F0 F1 w (with_mb a None) [] = run F0 F1 w (with_mb a (Some 0)) []
  ∧ run F0 F1 w (with_mb a (Some 0)) [] = run F0 F1 w (with_mb a (Some nz)) [].
Proof.
  intros Hdims. split; [reflexivity|].
  unfold run.
  change (run_inputs w (with_mb a (Some nz))) with (run_inputs w a).
  change (run_inputs w (with_mb a (Some 0))) with (run_inputs w a).
  apply bind_ext_Ok. intros [[[[data grad] mssh] bvals] mask] t Hin.
  apply run_inputs_opened in Hin as (Hopen & _).
  apply Hdims in Hopen.
  apply bind_cong; [|reflexivity].
  rewrite !run_mb_spec, Hopen. cbv zeta.
  change (get_option_value (opt_mb (with_mb a (Some 0))) 0) with 0.
  change (get_option_value (opt_mb (with_mb a (Some nz))) 0) with nz.
  by rewrite !bool_decide_eq_true_2 by auto.
Qed.

(** X6.  A supplied initial motion matrix (of at least one row when it has
    six columns) is accepted exactly when it has six columns and its row
    count divides volumeCount x sliceCount; it is then passed on as
    loaded, and it has no more rows than there are slices in the
    series. *)
Theorem init_accepted_iff w a data nz nv f init init' tr :
  img_dims data !! 2 = Some nz →
  img_dims data !! 3 = Some nv →
  opt_init a = Some f →
  load_matrix w f = inr init →
  (m_cols init = 6 → 0 < m_rows init) →
  (run_init F0 w a data tr = (tr, Ok init')
   ↔ init' = init ∧ m_cols init = 6 ∧ (m_rows init | nv * nz))
  ∧ (run_init F0 w a data tr = (tr, Ok init') → 0 < nv * nz →
     1 ≤ m_rows init' ≤ nv * nz).
Proof.
  intros Hnz Hnv Hopt Hload Hrows.
  assert (Hiff : run_init F0 w a data tr = (tr, Ok init')
                 ↔ init' = init ∧ m_cols init = 6 ∧ (m_rows init | nv * nz)).
  { rewrite run_init_spec, Hnv, Hopt, Hload, Hnz.
    case_bool_decide as Hcols.
    - split; [done|]. by intros (_ & ? & _).
    - assert (m_cols init = 6) as H6 by lia. specialize (Hrows H6).
      rewrite bool_decide_eq_false_2 by lia.
      case_bool_decide as Hmod.
      + split; [done|]. intros (_ & _ & Hdiv).
        destruct Hmod. by apply Nat.Lcm0.mod_divide.
      + split.
        * intros [= <-]. split_and!; [done..|].
          apply Nat.Lcm0.mod_divide. lia.
        * by intros (-> & _). }
  split; [exact Hiff|].
  intros Hok Hpos. apply Hiff in Hok as (-> & H6 & Hdiv).
  specialize (Hrows H6). apply Nat.divide_pos_le in Hdiv; lia.
Qed.

(** The images of a configuration are the opened arguments. *)
Lemma configured_opened w a c ptr :
  configured F0 F1 w a c ptr →
  image_open w (arg_data a) = inr (cfg_data c)
  ∧ image_open w (arg_mssh a) = inr (cfg_mssh c).
Proof.
  intros Hc. apply configured_inv in Hc as (Hin & _).
  apply run_inputs_opened in Hin as (? & _ & ? & _). done.
Qed.

(** X7.  With a [-multiecho] option the run completes exactly when it
    completes without the option and both images of the second echo open
    and have the extents of their primary counterparts, along every
    axis. *)
Theorem multiecho_completes_iff w a f1 f2 :
  opt_multiecho a = Some (f1, f2) →
  (∃ tr, run F0 F1 w a [] = (tr, Ok tt))
  ↔ (∃ tr0, run F0 F1 w (without_multiecho a) [] = (tr0, Ok tt))
    ∧ ∃ data mssh data2 mssh2,
        image_open w (arg_data a) = inr data
        ∧ image_open w (arg_mssh a) = inr mssh
        ∧ image_open w f1 = inr data2
        ∧ image_open w f2 = inr mssh2
        ∧ img_dims data2 = img_dims data
        ∧ img_dims mssh2 = img_dims mssh.
Proof.
  intros Hopt. split.
  - intros [tr Hrun].
    apply run_cases in Hrun
      as [(c & ptr & Hc & Hp)|[(e & _ & ?)|(u & _ & ?)]]; [|done..].
    rewrite run_pipeline_spec in Hp.
    destruct (shells_error w (cfg_grad c) (cfg_bvals c)) eqn:Hsrc; [done|].
    destruct (run_multiecho w a (cfg_data c) (cfg_mssh c) (cfg_pipe a c) [])
      as [me [pipe|e|u]] eqn:Hme; [|done..].
    destruct (save_error w (arg_out a)) eqn:Hsave; [done|].
    pose proof (configured_opened _ _ _ _ Hc) as [Hdata Hmssh].
    split.
    + assert (configured F0 F1 w (without_multiecho a) c ptr) as Hc0
        by exact Hc.
      eexists. rewrite run_split. unfold bind. rewrite Hc0.
      rewrite run_pipeline_spec, Hsrc, run_multiecho_spec. simpl.
      change (arg_out (without_multiecho a)) with (arg_out a).
      rewrite Hsave. reflexivity.
    + rewrite run_multiecho_spec, Hopt in Hme.
      destruct (image_open w f1) as [e|data2]; [done|].
      destruct (dimensions_match (cfg_data c) data2) eqn:Hd1; [|done].
      destruct (image_open w f2) as [e|mssh2]; [done|].
      destruct (dimensions_match (cfg_mssh c) mssh2) eqn:Hd2; [|done].
      apply bool_decide_eq_true in Hd1, Hd2.
      exists (cfg_data c), (cfg_mssh c), data2, mssh2. done.
  - intros [[tr0 Hrun] (data & mssh & data2 & mssh2 & Hdata & Hmssh & H1 & H2
                         & Hd1 & Hd2)].
    apply run_cases in Hrun
      as [(c & ptr & Hc & Hp)|[(e & _ & ?)|(u & _ & ?)]]; [|done..].
    rewrite run_pipeline_spec, run_multiecho_spec in Hp. simpl in Hp.
    destruct (shells_error w (cfg_grad c) (cfg_bvals c)) eqn:Hsrc; [done|].
    change (arg_out (without_multiecho a)) with (arg_out a) in Hp.
    destruct (save_error w (arg_out a)) eqn:Hsave; [done|].
    assert (configured F0 F1 w a c ptr) as Hc' by exact Hc.
    pose proof (configured_opened _ _ _ _ Hc') as [Hdata' Hmssh'].
    rewrite Hdata in Hdata'. rewrite Hmssh in Hmssh'.
    injection Hdata' as ->. injection Hmssh' as ->.
    eexists. rewrite run_split. unfold bind. rewrite Hc'.
    rewrite run_pipeline_spec, Hsrc, run_multiecho_spec, Hopt, H1, H2.
    unfold dimensions_match. rewrite !bool_decide_eq_true_2 by done.
    rewrite Hsave. reflexivity.
Qed.


(** The inputs block has one undefined step: the lookup of the shells. *)
Lemma run_inputs_undefined w a tr tr' u :
  run_inputs w a tr = (tr', Undefined u) →
  u = UB_end_iterator
  ∧ ∃ mssh, image_open w (arg_mssh a) = inr mssh
            ∧ img_keyval mssh !! "shells" = None.
Proof.
  rewrite run_inputs_spec.
  destruct (image_open w (arg_data a)) as [e|data]; [done|].
  destruct (get_DW_scheme w data) as [e|grad]; [done|].
  destruct (image_open w (arg_mssh a)) as [e|mssh]; [done|].
  case_bool_decide; [done|].
  destruct (img_keyval mssh !! "shells") as [s|] eqn:Hkey.
  - repeat case_match; done.
  - intros [= _ <-]. eauto.
Qed.

(** X9.  [run] reaches undefined behaviour in three ways only: the header
    of the prediction has no [shells] entry (end iterator dereferenced),
    the data has fewer than four axes ([size] of a missing axis), or a
    six-column initial motion matrix has no row ([%] with a zero
    divisor). *)
Theorem undefined_behaviour_causes w a tr u :
  run F0 F1 w a [] = (tr, Undefined u) →
  (u = UB_end_iterator
   ∧ ∃ mssh, image_open w (arg_mssh a) = inr mssh
             ∧ img_keyval mssh !! "shells" = None)
  ∨ (u = UB_axis_range
     ∧ ∃ data, image_open w (arg_data a) = inr data ∧ ndim data < 4)
  ∨ (u = UB_division_by_zero
     ∧ ∃ f init, opt_init a = Some f ∧ load_matrix w f = inr init
                 ∧ m_cols init = 6 ∧ m_rows init = 0).
Proof.
  intros Hrun.
  apply run_cases in Hrun
    as [(c & ptr & _ & Hp)|[(e & _ & ?)|(u' & Hc & [= <-])]]; [|done|].
  { apply run_pipeline_cases in Hp
      as [(? & ? & _)|[(? & ? & _)|(? & ? & Ho & _)]]; [done..|].
    by destruct (save_error w (arg_out a)). }
  revert Hc. rewrite run_config_spec.
  destruct (run_inputs w a [])
    as [t0 [[[[[data grad] mssh] bvals] mask]|e|u']] eqn:Hin; [|done|].
  2: { intros [= _ <-]. left. by apply run_inputs_undefined in Hin. }
  apply run_inputs_opened in Hin as (Hopen & _).
  assert (Haxis : ∀ i, i < 4 → img_dims data !! i = None →
            ∃ data, image_open w (arg_data a) = inr data ∧ ndim data < 4).
  { intros i Hi Hnone. exists data. split; [done|].
    apply lookup_ge_None_1 in Hnone. unfold ndim. lia. }
  rewrite run_mb_spec.
  destruct (img_dims data !! 2) as [nz|] eqn:Hnz;
    [|intros [= _ <-]; right; left; split; [done|]; by apply (Haxis 2); [lia|]].
  cbv zeta.
  assert (Hssp : ∀ p u', run_ssp F1 w a [] ≠ (p, Undefined u')).
  { intros p u'. rewrite run_ssp_spec. repeat case_match; done. }
  destruct (bool_decide (_ ∨ _)); [|destruct (bool_decide (_ ≠ 0)); [done|]];
    (destruct (run_ssp F1 w a []) as [p [ssp|e|u']] eqn:Hs;
       [|done|by destruct (Hssp p u')];
     rewrite run_init_spec, Hnz;
     (destruct (img_dims data !! 3) as [nv|] eqn:Hnv;
       [|intros [= _ <-]; right; left; split; [done|];
         by apply (Haxis 3); [lia|]]);
     (destruct (opt_init a) as [f|] eqn:Hopt; [|done]);
     (destruct (load_matrix w f) as [e|init] eqn:Hload; [done|]);
     (case_bool_decide as Hcols; [done|]);
     (case_bool_decide as Hrows;
       [intros [= _ <-]; right; right; split; [done|];
        exists f, init; split_and!; [done..|lia|done]|]);
     by destruct (bool_decide (_ ≠ 0))).
Qed.

(** X10.  The actions of a run follow the text of [run]: along every trace
    the line numbers strictly increase, so no action happens twice and
    none out of turn - the SSP argument is read before any component
    exists, the components exist before the queue starts, and the queue
    has run before anything is written. *)
Theorem actions_in_source_order w a tr o :
  run F0 F1 w a [] = (tr, o) →
  StronglySorted lt (step_of <$> tr).
Proof.
  intros Hrun.
  assert (Hptr : ∀ ptr r, run_config F0 F1 w a [] = (ptr, r) →
            ptr = [] ∨ (∃ t, ptr = [EvStof t])
            ∨ (∃ t, ptr = [EvStof t; EvLoadVector t])).
  { intros ptr r Hc. apply run_config_stops in Hc as [->| ->]; [by left|].
    destruct (run_ssp F1 w a []) as [p q] eqn:Hssp.
    by apply run_ssp_trace in Hssp. }
  apply run_cases in Hrun
    as [(c & ptr & Hc & Hp)|[(e & Hc & _)|(u & Hc & _)]].
  - apply Hptr in Hc.
    apply run_pipeline_cases in Hp
      as [(e & _ & -> & _)
         |[(e & _ & -> & _)|(me & pipe & _ & _ & Hme & ->)]].
    + destruct Hc as [->|[[t ->]|[t ->]]]; simpl;
        repeat (constructor; simpl; try lia).
    + destruct Hc as [->|[[t ->]|[t ->]]]; simpl;
        repeat (constructor; simpl; try lia).
    + destruct Hc as [->|[[t ->]|[t ->]]], Hme as [->| ->]; simpl;
        repeat (constructor; simpl; try lia).
  - apply Hptr in Hc as [->|[[t ->]|[t ->]]]; simpl;
      repeat (constructor; simpl; try lia).
  - apply Hptr in Hc as [->|[[t ->]|[t ->]]]; simpl;
      repeat (constructor; simpl; try lia).
Qed.

(** X11.  The iteration limit is not checked and decides nothing but the
    estimates: two runs that differ in [-maxiter] only have the same
    outcome and do the same things in the same order, up to the content
    of the matrix they write. *)
Theorem maxiter_changes_estimates_only w a n1 n2 :
  snd (run F0 F1 w (with_maxiter a n1) [])
  = snd (run F0 F1 w (with_maxiter a n2) [])
  ∧ forget_matrix <$> fst (run F0 F1 w (with_maxiter a n1) [])
    = forget_matrix <$> fst (run F0 F1 w (with_maxiter a n2) []).
Proof.
  rewrite !run_split. unfold bind.
  change (run_config F0 F1 w (with_maxiter a n2))
    with (run_config F0 F1 w (with_maxiter a n1)).
  destruct (run_config F0 F1 w (with_maxiter a n1) []) as [ptr [c|e|u]];
    [|done..].
  rewrite !run_pipeline_spec, !run_multiecho_spec.
  destruct (shells_error w (cfg_grad c) (cfg_bvals c)); [done|].
  change (opt_multiecho (with_maxiter a n2)) with (opt_multiecho a).
  change (opt_multiecho (with_maxiter a n1)) with (opt_multiecho a).
  change (arg_out (with_maxiter a n2)) with (arg_out a).
  change (arg_out (with_maxiter a n1)) with (arg_out a).
  destruct (opt_multiecho a) as [[f1 f2]|].
  - destruct (image_open w f1) as [e|data2]; [done|].
    destruct (dimensions_match (cfg_data c) data2); [|done].
    destruct (image_open w f2) as [e|mssh2]; [done|].
    destruct (dimensions_match (cfg_mssh c) mssh2); [|done].
    split; [done|]. simpl. by rewrite !fmap_app.
  - split; [done|]. simpl. by rewrite !fmap_app.
Qed.

End ExtraProperties.

(** ** The further properties on the concrete environment *)

(** X1 on a prediction with four axes. *)
Lemma mssh_must_be_5d_witness :
  run 0%Q 1%Q Demo2.world (Demo2.args "mssh4.mif" None) []
  = ([], Throw (MRException "5-D MSSH image expected.")).
Proof.
  apply (mssh_must_be_5d 0%Q 1%Q Demo2.world (Demo2.args "mssh4.mif" None)
           Demo.dwi (mkMatrix 3 4 (fun _ _ => 0%Q)) Demo2.mssh4
           eq_refl eq_refl eq_refl).
  unfold ndim. simpl. lia.
Defined.

(** X2 on a data file that does not exist. *)
Lemma input_failure_aborts_witness :
  run 0%Q 1%Q Demo.world
      (mkArgs "nothing.mif" "mssh.mif" "out.txt" None None None None None None)
      []
  = ([], Throw Demo.no_file).
Proof.
  apply (input_failure_aborts 0%Q 1%Q Demo.world). left. reflexivity.
Defined.

(** X3 on a mask with a fourth axis of its own. *)
Lemma mask_checked_on_spatial_axes_witness :
  run_inputs Demo2.world (Demo2.args "mssh.mif" (Some "mask4.mif")) []
  = ([], Ok (Demo.dwi, mkMatrix 3 4 (fun _ _ => 0%Q), Demo.mssh,
             [0%Q; (1000 # 1)%Q], Some Demo2.mask4)).
Proof.
  apply (mask_checked_on_spatial_axes 0%Q 1%Q Demo2.world
           (Demo2.args "mssh.mif" (Some "mask4.mif")) Demo.dwi
           (mkMatrix 3 4 (fun _ _ => 0%Q)) Demo.mssh "0,1000"
           [0%Q; (1000 # 1)%Q] "mask4.mif" Demo2.mask4
           eq_refl eq_refl eq_refl eq_refl eq_refl eq_refl eq_refl eq_refl).
  unfold ndim. split_and!; [simpl; lia..|reflexivity].
Defined.

(** X4 on [-mb 3] with six slices. *)
Lemma multiband_factor_accepted_witness :
  (3 | 6) ∧ (0 < 6 → 1 ≤ 3 ≤ 6 ∧ 3 ≤ 6).
Proof.
  apply (proj2 (multiband_factor_accepted (F:=Q)
                  (Demo.args (Some 3) None None None None) Demo.dwi 6 [] 3
                  eq_refl)).
  reflexivity.
Defined.

(** X5 on the data of six slices. *)
Lemma volume_to_volume_spellings_witness :
  run 0%Q 1%Q Demo.world
      (with_mb (Demo.args None None None None None) (Some 0)) []
  = run 0%Q 1%Q Demo.world
        (with_mb (Demo.args None None None None None) (Some 6)) [].
Proof.
  apply (volume_to_volume_spellings 0%Q 1%Q Demo.world
           (Demo.args None None None None None) 6).
  intros data Hopen. vm_compute in Hopen. injection Hopen as <-. reflexivity.
Defined.

(** X6 on [-init init.txt]: three rows for 3 x 6 slices. *)
Lemma init_accepted_iff_witness :
  ∃ init, Demo.matrices "init.txt" = inr init
          ∧ 1 ≤ m_rows init ≤ 3 * 6.
Proof.
  eexists. split; [reflexivity|].
  refine (proj2 (init_accepted_iff 0%Q Demo.world
                   (Demo.args None None (Some "init.txt") None None)
                   Demo.dwi 6 3 "init.txt" _ _ []
                   eq_refl eq_refl eq_refl eq_refl _) eq_refl _);
    simpl; lia.
Defined.

(** X7 on a second echo with the extents of the first. *)
Lemma multiecho_completes_iff_witness :
  ∃ tr, run 0%Q 1%Q Demo.world
            (Demo.args None None None None (Some ("echo2.mif", "mssh.mif")))
            []
        = (tr, Ok tt).
Proof.
  apply (multiecho_completes_iff 0%Q 1%Q Demo.world
           (Demo.args None None None None (Some ("echo2.mif", "mssh.mif")))
           "echo2.mif" "mssh.mif" eq_refl).
  split.
  - eexists. vm_compute. reflexivity.
  - exists Demo.dwi, Demo.mssh, Demo.echo2, Demo.mssh.
    split_and!; reflexivity.
Defined.


(** X9 on a prediction without a [shells] entry. *)
Lemma undefined_behaviour_causes_witness :
  ∃ mssh, Demo.files "bare.mif" = inr mssh
          ∧ img_keyval mssh !! "shells" = None.
Proof.
  destruct (undefined_behaviour_causes 0%Q 1%Q Demo.world
              (mkArgs "dwi.mif" "bare.mif" "out.txt" None None None None None
                      None)
              [] UB_end_iterator eq_refl)
    as [[_ H]|[[? _]|[? _]]]; [exact H|discriminate..].
Defined.

(** X10 on a run with every action in it. *)
Lemma actions_in_source_order_witness :
  StronglySorted lt
    (step_of <$> fst (Demo.execute
                        (Demo.args (Some 3) (Some "ssp.txt") None None
                           (Some ("echo2.mif", "mssh.mif"))))).
Proof.
  apply (actions_in_source_order 0%Q 1%Q Demo.world
           (Demo.args (Some 3) (Some "ssp.txt") None None
              (Some ("echo2.mif", "mssh.mif"))) _ _ eq_refl).
Defined.
